(** * Recipe Manager API (main.py): a shallow embedding and its properties

    The service keeps recipes in one SQLite table through SQLAlchemy's ORM
    and exposes four FastAPI routes: [GET /recipes], [POST /recipes],
    [DELETE /recipes/{id}] and [POST /ai-recipe].  This file embeds the four
    handlers together with the parts of their collaborators that the
    handlers rely on:

    - Python [str] values as sequences of code points;
    - [json.dumps] / [json.loads] on lists of strings (CPython's [json]
      package with its default settings);
    - an ORM session over the [recipes] table: objects held by reference,
      attribute assignment, [add], [delete], [commit], [refresh], [close];
    - what SQLite and the response encoder refuse: a [str] with a surrogate
      code point has no UTF-8 encoding, an [int] beyond 64 bits is no
      [INTEGER];
    - the environment of the suggestion route: the [GROQ_API_KEY] variable,
      the chat-completion provider and the random generator. *)

From Stdlib Require Import Ascii String ZArith NArith QArith Lia.
From stdpp Require Import base tactics option list.

Local Open Scope N_scope.

(** ** Python strings *)

(** A Python [str] is a sequence of Unicode code points; [ord] of every
    element is below [0x110000]. *)
Abbreviation pystr := (list N) (only parsing).

Definition is_str (s : pystr) : Prop := Forall (λ c, c < 0x110000) s.

(** An ASCII literal of the source, as a [str]. *)
Definition lit (s : string) : pystr := map N_of_ascii (list_ascii_of_string s).

Definition Py_UNICODE_IS_HIGH_SURROGATE (c : N) : bool :=
  (0xD800 <=? c) && (c <=? 0xDBFF).
Definition Py_UNICODE_IS_LOW_SURROGATE (c : N) : bool :=
  (0xDC00 <=? c) && (c <=? 0xDFFF).
Definition Py_UNICODE_JOIN_SURROGATES (hi lo : N) : N :=
  0x10000 + N.lor (N.shiftl (N.land hi 0x3FF) 10) (N.land lo 0x3FF).

(** [no_surrogate_pair s]: nowhere in [s] is a high surrogate directly
    followed by a low surrogate.  Every sequence of Unicode scalar values
    (what a UTF-8 request body decodes to) satisfies it. *)
Fixpoint no_surrogate_pair (s : pystr) : bool :=
  match s with
  | [] => true
  | c :: s' =>
      match s' with
      | [] => true
      | d :: _ =>
          negb (Py_UNICODE_IS_HIGH_SURROGATE c && Py_UNICODE_IS_LOW_SURROGATE d)
          && no_surrogate_pair s'
      end
  end.

Definition unicode_text (s : pystr) : Prop :=
  is_str s ∧ no_surrogate_pair s = true.

(** A Unicode scalar value: a code point that is not a surrogate. *)
Definition is_scalar (c : N) : bool :=
  (c <? 0xD800) || ((0xDFFF <? c) && (c <? 0x110000)).

(** [s.encode('utf-8')] succeeds: [s] holds no surrogate code point, alone
    or in a pair. *)
Definition utf8 (s : pystr) : bool := forallb is_scalar s.

(** [sep.join(items)] *)
Fixpoint join (sep : pystr) (items : list pystr) : pystr :=
  match items with
  | [] => []
  | [x] => x
  | x :: rest => x ++ sep ++ join sep rest
  end.

(** ** json.dumps on a list of strings

    [json.dumps(obj)] with the default [ensure_ascii=True] and the default
    separators [(', ', ': ')], as in CPython's [json/encoder.py]. *)
Module Json.

(** One digit of [format(n, 'x')]. *)
Definition hexdigit (d : N) : N := if d <? 10 then 48 + d else 87 + d.

(** ['\\u{0:04x}'.format(n)] *)
Definition u_escape (n : N) : pystr :=
  [92; 117; hexdigit (n / 4096 mod 16); hexdigit (n / 256 mod 16);
   hexdigit (n / 16 mod 16); hexdigit (n mod 16)].

(** The character class of the [ESCAPE_ASCII] pattern: a backslash, a
    double quote, or anything outside the printable range space..tilde. *)
Definition ESCAPE_ASCII (c : N) : bool :=
  (c =? 92) || (c =? 34) || negb ((32 <=? c) && (c <=? 126)).

(** [ESCAPE_DCT], without the [\u00XX] entries that [setdefault] adds for
    the other control characters (they coincide with [u_escape]). *)
Definition ESCAPE_DCT (c : N) : option pystr :=
  if c =? 92 then Some [92; 92]
  else if c =? 34 then Some [92; 34]
  else if c =? 8 then Some [92; 98]
  else if c =? 12 then Some [92; 102]
  else if c =? 10 then Some [92; 110]
  else if c =? 13 then Some [92; 114]
  else if c =? 9 then Some [92; 116]
  else None.

(** The [replace] callback of [py_encode_basestring_ascii]. *)
Definition replace (c : N) : pystr :=
  match ESCAPE_DCT c with
  | Some e => e
  | None =>
      if c <? 0x10000 then u_escape c
      else
        let n := c - 0x10000 in
        let s1 := N.lor 0xD800 (N.land (N.shiftr n 10) 0x3FF) in
        let s2 := N.lor 0xDC00 (N.land n 0x3FF) in
        u_escape s1 ++ u_escape s2
  end.

Definition escape_char (c : N) : pystr :=
  if ESCAPE_ASCII c then replace c else [c].

(** [ESCAPE_ASCII.sub(replace, s)] *)
Definition escape (s : pystr) : pystr := flat_map escape_char s.

(** [py_encode_basestring_ascii(s)] *)
Definition encode_basestring_ascii (s : pystr) : pystr :=
  34 :: escape s ++ [34].

(** The default [item_separator], a comma and a space. *)
Definition item_separator : pystr := [44; 32].

(** [json.dumps(l)] for a list of strings [l]. *)
Definition dumps (l : list pystr) : pystr :=
  91 :: join item_separator (map encode_basestring_ascii l) ++ [93].

(** ** json.loads, read at the type [List[str]]

    [json.loads(s)] as in CPython's [json/decoder.py] and the C scanner
    ([scanstring_unicode] with [strict=True], [_parse_array_unicode]),
    restricted to the documents the [ingredients] field accepts: a JSON
    array whose elements are all strings.  Any other document is either a
    [JSONDecodeError] or a value that the response schema [List[str]]
    rejects; both end the request with an error and are [None] here. *)

Definition hexval (c : N) : option N :=
  if (48 <=? c) && (c <=? 57) then Some (c - 48)
  else if (97 <=? c) && (c <=? 102) then Some (c - 87)
  else if (65 <=? c) && (c <=? 70) then Some (c - 55)
  else None.

(** Four hex digits, most significant first ([c <<= 4; c |= digit]). *)
Definition decode_uXXXX (a b c d : N) : option N :=
  x3 ← hexval a; x2 ← hexval b; x1 ← hexval c; x0 ← hexval d;
  Some (N.lor (N.shiftl (N.lor (N.shiftl (N.lor (N.shiftl x3 4) x2) 4) x1) 4) x0).

(** The single-character escapes ([BACKSLASH] in the Python scanner). *)
Definition BACKSLASH (e : N) : option N :=
  if e =? 34 then Some 34
  else if e =? 92 then Some 92
  else if e =? 47 then Some 47
  else if e =? 98 then Some 8
  else if e =? 102 then Some 12
  else if e =? 110 then Some 10
  else if e =? 114 then Some 13
  else if e =? 116 then Some 9
  else None.

(** [scanstring s]: [s] starts right after an opening quote; the result is
    the decoded string and the input after the closing quote. *)
Fixpoint scanstring (s : pystr) : option (pystr * pystr) :=
  match s with
  | [] => None                                  (* Unterminated string *)
  | c :: s1 =>
      if c =? 34 then Some ([], s1)
      else if c =? 92 then
        match s1 with
        | [] => None                            (* Unterminated string *)
        | e :: s2 =>
            if e =? 117 then
              match s2 with
              | a :: b :: c' :: d :: s3 =>
                  match s3 with
                  | [] => None                  (* Invalid \uXXXX escape *)
                  | _ :: _ =>
                      uni ← decode_uXXXX a b c' d;
                      match s3 with
                      | b1 :: u1 :: a2 :: b2 :: c2 :: d2 :: s4 =>
                          match s4 with
                          | _ :: _ =>
                              if Py_UNICODE_IS_HIGH_SURROGATE uni
                                 && (b1 =? 92) && (u1 =? 117) then
                                uni2 ← decode_uXXXX a2 b2 c2 d2;
                                if Py_UNICODE_IS_LOW_SURROGATE uni2 then
                                  '(r, rest) ← scanstring s4;
                                  Some (Py_UNICODE_JOIN_SURROGATES uni uni2 :: r, rest)
                                else
                                  '(r, rest) ← scanstring s3;
                                  Some (uni :: r, rest)
                              else
                                '(r, rest) ← scanstring s3;
                                Some (uni :: r, rest)
                          | [] =>
                              '(r, rest) ← scanstring s3;
                              Some (uni :: r, rest)
                          end
                      | _ =>
                          '(r, rest) ← scanstring s3;
                          Some (uni :: r, rest)
                      end
                  end
              | _ => None                       (* Invalid \uXXXX escape *)
              end
            else
              ch ← BACKSLASH e;                 (* Invalid \escape *)
              '(r, rest) ← scanstring s2;
              Some (ch :: r, rest)
        end
      else if c <=? 0x1F then None              (* Invalid control character *)
      else
        '(r, rest) ← scanstring s1;
        Some (c :: r, rest)
  end.

(** [WHITESPACE.match(s, idx).end()] with [WHITESPACE = [ \t\n\r]*] *)
Definition is_ws (c : N) : bool :=
  (c =? 32) || (c =? 9) || (c =? 10) || (c =? 13).

Fixpoint skip_ws (s : pystr) : pystr :=
  match s with
  | c :: s' => if is_ws c then skip_ws s' else s
  | [] => []
  end.

(** The loop of [_parse_array_unicode], entered at the first element.
    Every turn consumes at least one character, so [fuel] bounded by the
    length of the input never runs out. *)
Fixpoint parse_items (fuel : nat) (s : pystr) : option (list pystr * pystr) :=
  match fuel with
  | O => None
  | S fuel' =>
      match s with
      | c :: s1 =>
          if c =? 34 then
            '(v, s2) ← scanstring s1;
            match skip_ws s2 with
            | d :: s3 =>
                if d =? 93 then Some ([v], s3)
                else if d =? 44 then
                  '(vs, rest) ← parse_items fuel' (skip_ws s3);
                  Some (v :: vs, rest)
                else None                       (* Expecting ',' delimiter *)
            | [] => None
            end
          else None                             (* not a string element *)
      | [] => None                              (* Expecting value *)
      end
  end.

Definition parse_array (s : pystr) : option (list pystr * pystr) :=
  match skip_ws s with
  | c :: s1 => if c =? 93 then Some ([], s1) else parse_items (length s) (skip_ws s)
  | [] => None
  end.

(** [json.loads(s)], accepted when the document is an array of strings. *)
Definition loads (s : pystr) : option (list pystr) :=
  match skip_ws s with
  | c :: s1 =>
      if c =? 91 then
        '(l, rest) ← parse_array s1;
        match skip_ws rest with
        | [] => Some l
        | _ :: _ => None                        (* Extra data *)
        end
      else None
  | [] => None
  end.

End Json.

(** ** Exceptions, results and the handler monad *)

(** The exceptions a handler can meet: FastAPI's [HTTPException], and any
    other subclass of [Exception], kept by class name and [str(e)]. *)
Inductive exn :=
| HTTPException (status_code : Z) (detail : pystr)
| Exception (cls : string) (msg : pystr).

Inductive result (A : Type) :=
| Return (a : A)
| Raise (e : exn).
Arguments Return {A} a.
Arguments Raise {A} e.

(** A computation over a mutable state [S]: it returns or raises, and the
    state reached so far is kept in both cases. *)
Definition py (S A : Type) : Type := S → result A * S.

Definition ret {S A} (a : A) : py S A := λ s, (Return a, s).
Definition raise {S A} (e : exn) : py S A := λ s, (Raise e, s).
Definition bind {S A B} (m : py S A) (k : A → py S B) : py S B :=
  λ s, match m s with
       | (Return a, s') => k a s'
       | (Raise e, s') => (Raise e, s')
       end.
Definition gets {S A} (f : S → A) : py S A := λ s, (Return (f s), s).
Definition modify {S} (f : S → S) : py S unit := λ s, (Return tt, f s).

Declare Scope py_scope.
Delimit Scope py_scope with py.
Notation "x <- m ;; k" := (bind m (λ x, k))
  (at level 20, m at level 99, k at level 200, only parsing) : py_scope.
Notation "m ;; k" := (bind m (λ _, k))
  (at level 100, k at level 200, only parsing, right associativity) : py_scope.

(** [for x in l: body(x)] *)
Fixpoint for_each {S A} (l : list A) (body : A → py S unit) : py S unit :=
  match l with
  | [] => ret tt
  | x :: l' => (body x ;; for_each l' body)%py
  end.

(** [[f(x) for x in l]] *)
Fixpoint map_each {S A B} (l : list A) (f : A → py S B) : py S (list B) :=
  match l with
  | [] => ret []
  | x :: l' => (y <- f x ;; ys <- map_each l' f ;; ret (y :: ys))%py
  end.

(** ** The [recipes] table *)

(** A stored row: [id INTEGER PRIMARY KEY], [name], [ingredients TEXT],
    [steps TEXT]. *)
Record Row := mkRow {
  row_id : Z;
  row_name : pystr;
  row_ingredients : pystr;
  row_steps : pystr;
}.

(** The table, in rowid order (the order of an unordered [SELECT]). *)
Abbreviation table := (list Row) (only parsing).

(** A rowid, like every SQLite [INTEGER], is a signed 64-bit integer; an
    [int] outside that range cannot be bound to a parameter of a statement
    ([OverflowError]). *)
Definition in_int64 (i : Z) : bool :=
  (-9223372036854775808 <=? i)%Z && (i <=? 9223372036854775807)%Z.

Definition MAX_ROWID : Z := 9223372036854775807.

(** What a SQLite file can hold: every rowid is a 64-bit integer. *)
Definition sqlite_table (t : table) : bool :=
  forallb (λ r, in_int64 (row_id r)) t.

Definition has_id (i : Z) (t : table) : bool :=
  existsb (λ r, (row_id r =? i)%Z) t.

(** The largest rowid in use, if there is a row. *)
Definition largest_rowid (t : table) : option Z :=
  match t with
  | [] => None
  | r :: t' => Some (foldr Z.max (row_id r) (map row_id t'))
  end.

(** SQLite's rowid for an [INSERT] without an id: [1] in an empty table,
    one more than the largest rowid in use as long as that is below
    [MAX_ROWID].  Once [MAX_ROWID] is in use the engine tries positive
    rowids at random; [random] is what that search ends with: a rowid not
    in use, or nothing ([SQLITE_FULL]). *)
Definition new_rowid (random : option Z) (t : table) : option Z :=
  match largest_rowid t with
  | None => Some 1
  | Some m =>
      if m <? MAX_ROWID then Some (m + 1)
      else match random with
           | Some i =>
               if (1 <=? i) && (i <=? MAX_ROWID) && negb (has_id i t)
               then Some i else None
           | None => None
           end
  end%Z.

(** [MAX_ROWID] is not in use. *)
Definition below_max (t : table) : bool :=
  match largest_rowid t with
  | None => true
  | Some m => (m <? MAX_ROWID)%Z
  end.

(** The table with one more row, at its place in rowid order. *)
Fixpoint insert_row (row : Row) (t : table) : table :=
  match t with
  | [] => [row]
  | r :: t' =>
      if (row_id row <? row_id r)%Z then row :: r :: t'
      else r :: insert_row row t'
  end.

(** ** ORM objects and the session *)

(** What the attribute [ingredients] of an ORM object holds: the column's
    text, or the list a handler has assigned to it. *)
Inductive pyval :=
| PyStr (s : pystr)
| PyList (l : list pystr).

Module RecipeDB.
Record t := mk {
  id : option Z;            (* [None] until the row is inserted *)
  name : pystr;
  ingredients : pyval;
  steps : pystr;
}.
End RecipeDB.

Inductive ostate := Pending | Persistent | Deleted | Detached.

(** An object known to the session, with its state and whether one of its
    attributes was assigned since it was loaded. *)
Record entry := mkEntry {
  obj : RecipeDB.t;
  state : ostate;
  modified : bool;
}.

(** Objects are held by reference: a position in the session's objects. *)
Abbreviation ref := nat (only parsing).

Record Session := mkSession {
  database : table;           (* the committed content of recipes.db *)
  objects : list entry;
  random_rowid : option Z;    (* where the engine's search for a rowid ends *)
}.

(** [SessionLocal()] *)
Definition SessionLocal (d : table) (random : option Z) : Session :=
  {| database := d; objects := []; random_rowid := random |}.

Definition load (r : Row) : entry :=
  {| obj := RecipeDB.mk (Some (row_id r)) (row_name r) (PyStr (row_ingredients r)) (row_steps r);
     state := Persistent; modified := false |}.

Local Open Scope py_scope.

(** [db.query(RecipeDB).all()]: one object per row (rows have distinct
    primary keys), in table order. *)
Definition query_all : py Session (list ref) :=
  λ s, (Return (seq (length (objects s)) (length (database s))),
        {| database := database s; objects := objects s ++ map load (database s);
           random_rowid := random_rowid s |}).

(** [db.query(RecipeDB).filter(RecipeDB.id == recipe_id).first()]: the id
    is bound to the parameter of the [SELECT], which fails for an [int]
    beyond 64 bits. *)
Definition query_filter_first (recipe_id : Z) : py Session (option ref) :=
  λ s, if in_int64 recipe_id then
         match List.find (λ r, (row_id r =? recipe_id)%Z) (database s) with
         | None => (Return None, s)
         | Some r => (Return (Some (length (objects s))),
                      {| database := database s; objects := objects s ++ [load r];
                         random_rowid := random_rowid s |})
         end
       else (Raise (Exception "OverflowError" []), s).

(** [db.add(RecipeDB(...))] *)
Definition add (o : RecipeDB.t) : py Session ref :=
  λ s, (Return (length (objects s)),
        {| database := database s;
           objects := objects s ++ [{| obj := o; state := Pending; modified := false |}];
           random_rowid := random_rowid s |}).

Definition deref (r : ref) : py Session entry :=
  λ s, match objects s !! r with
       | Some e => (Return e, s)
       | None => (Raise (Exception "ReferenceError" []), s)
       end.

Definition assign (r : ref) (e : entry) : py Session unit :=
  modify (λ s, {| database := database s; objects := <[r := e]> (objects s);
                  random_rowid := random_rowid s |}).

(** [r.ingredients] *)
Definition get_ingredients (r : ref) : py Session pyval :=
  e <- deref r ;; ret (RecipeDB.ingredients (obj e)).

(** [r.ingredients = v] *)
Definition set_ingredients (r : ref) (v : pyval) : py Session unit :=
  e <- deref r ;;
  assign r {| obj := RecipeDB.mk (RecipeDB.id (obj e)) (RecipeDB.name (obj e)) v
                                 (RecipeDB.steps (obj e));
              state := state e; modified := true |}.

(** [db.delete(r)] *)
Definition delete (r : ref) : py Session unit :=
  e <- deref r ;;
  match state e with
  | Persistent => assign r {| obj := obj e; state := Deleted; modified := modified e |}
  | _ => raise (Exception "InvalidRequestError" [])
  end.

(** The row an object is written as, when its attributes can be bound to
    the parameters of the statement: a list cannot be bound to a [TEXT]
    parameter, and a [str] is bound as its UTF-8 encoding, which a string
    with a surrogate code point does not have ([UnicodeEncodeError]). *)
Definition to_row (i : Z) (o : RecipeDB.t) : result Row :=
  match RecipeDB.ingredients o with
  | PyStr text =>
      if utf8 (RecipeDB.name o) && utf8 text && utf8 (RecipeDB.steps o)
      then Return (mkRow i (RecipeDB.name o) text (RecipeDB.steps o))
      else Raise (Exception "UnicodeEncodeError" [])
  | PyList _ => Raise (Exception "InterfaceError" [])
  end.

(** The rowid of the row a pending object is inserted as: its own id if it
    has one (a 64-bit integer not in use), a new rowid otherwise. *)
Definition insert_rowid (random : option Z) (o : RecipeDB.t) (t : table) : result Z :=
  match RecipeDB.id o with
  | Some i =>
      if negb (in_int64 i) then Raise (Exception "OverflowError" [])
      else if has_id i t then Raise (Exception "IntegrityError" [])
      else Return i
  | None =>
      match new_rowid random t with
      | Some i => Return i
      | None => Raise (Exception "OperationalError" [])
      end
  end.

(** The statement one object contributes to a flush: [INSERT] for a pending
    object, [UPDATE] for a modified persistent one, [DELETE] for a deleted
    one. *)
Definition flush_entry (random : option Z) (e : entry) (t : table)
  : result (entry * table) :=
  match state e with
  | Pending =>
      match insert_rowid random (obj e) t with
      | Return i =>
          match to_row i (obj e) with
          | Return row =>
              Return ({| obj := RecipeDB.mk (Some i) (RecipeDB.name (obj e))
                                             (RecipeDB.ingredients (obj e))
                                             (RecipeDB.steps (obj e));
                         state := Persistent; modified := false |},
                      insert_row row t)
          | Raise x => Raise x
          end
      | Raise x => Raise x
      end
  | Persistent =>
      if modified e then
        match RecipeDB.id (obj e) with
        | Some i =>
            match to_row i (obj e) with
            | Return row =>
                Return ({| obj := obj e; state := Persistent; modified := false |},
                        map (λ r, if (row_id r =? i)%Z then row else r) t)
            | Raise x => Raise x
            end
        | None => Raise (Exception "FlushError" [])
        end
      else Return (e, t)
  | Deleted =>
      match RecipeDB.id (obj e) with
      | Some i =>
          Return ({| obj := obj e; state := Detached; modified := false |},
                  filter (λ r, row_id r ≠ i) t)
      | None => Raise (Exception "FlushError" [])
      end
  | Detached => Return (e, t)
  end.

Fixpoint flush (random : option Z) (es : list entry) (t : table)
  : result (list entry * table) :=
  match es with
  | [] => Return ([], t)
  | e :: es' =>
      match flush_entry random e t with
      | Return (e', t') =>
          match flush random es' t' with
          | Return (es'', t'') => Return (e' :: es'', t'')
          | Raise x => Raise x
          end
      | Raise x => Raise x
      end
  end.

(** [db.commit()]: flush every object inside one transaction, then commit
    it; a failed flush rolls the transaction back, and nothing is written. *)
Definition commit : py Session unit :=
  λ s, match flush (random_rowid s) (objects s) (database s) with
       | Return (es, t) =>
           (Return tt, {| database := t; objects := es; random_rowid := random_rowid s |})
       | Raise x => (Raise x, s)
       end.

(** [db.refresh(r)]: reload the attributes of [r] from its row. *)
Definition refresh (r : ref) : py Session unit :=
  e <- deref r ;;
  match state e, RecipeDB.id (obj e) with
  | Persistent, Some i =>
      row <- gets (λ s, List.find (λ x, (row_id x =? i)%Z) (database s)) ;;
      match row with
      | Some x => assign r (load x)
      | None => raise (Exception "InvalidRequestError" [])
      end
  | _, _ => raise (Exception "InvalidRequestError" [])
  end.

(** [db.close()]: the objects are released; what was not committed is
    not written. *)
Definition close (s : Session) : table := database s.

(** [json.loads(v)] on an attribute value. *)
Definition json_loads {S} (v : pyval) : py S pyval :=
  match v with
  | PyStr text =>
      match Json.loads text with
      | Some l => ret (PyList l)
      | None => raise (Exception "JSONDecodeError" [])
      end
  | PyList _ => raise (Exception "TypeError" [])
  end.

(** ** Schemas *)

Module RecipeCreate.
Record t := mk { name : pystr; ingredients : list pystr; steps : pystr }.
End RecipeCreate.

Module Recipe.
Record t := mk { id : Z; name : pystr; ingredients : list pystr; steps : pystr }.
End Recipe.

Module IngredientList.
Record t := mk { ingredients : list pystr }.
End IngredientList.

(** [Recipe.model_validate(o)] with [from_attributes = True]. *)
Definition validate_Recipe (o : RecipeDB.t) : result Recipe.t :=
  match RecipeDB.id o, RecipeDB.ingredients o with
  | Some i, PyList l => Return (Recipe.mk i (RecipeDB.name o) l (RecipeDB.steps o))
  | _, _ => Raise (Exception "ResponseValidationError" [])
  end.

Definition serialize_Recipe (r : ref) : py Session Recipe.t :=
  e <- deref r ;;
  match validate_Recipe (obj e) with
  | Return x => ret x
  | Raise x => raise x
  end.

(** ** CRUD handlers *)

Definition get_recipes : py Session (list ref) :=
  recipes <- query_all ;;
  for_each recipes (λ r,
    v <- get_ingredients r ;;
    l <- json_loads v ;;
    set_ingredients r l) ;;
  ret recipes.

Definition create_recipe (recipe : RecipeCreate.t) : py Session ref :=
  db_recipe <- add (RecipeDB.mk None
                      (RecipeCreate.name recipe)
                      (PyStr (Json.dumps (RecipeCreate.ingredients recipe)))
                      (RecipeCreate.steps recipe)) ;;
  commit ;;
  refresh db_recipe ;;
  v <- get_ingredients db_recipe ;;
  l <- json_loads v ;;
  set_ingredients db_recipe l ;;
  ret db_recipe.

Record Message := mkMessage { message : pystr }.

Definition delete_recipe (recipe_id : Z) : py Session Message :=
  db_recipe <- query_filter_first recipe_id ;;
  match db_recipe with
  | None => raise (HTTPException 404 (lit "Recipe not found"))
  | Some r =>
      delete r ;;
      commit ;;
      ret {| message := lit "Recipe deleted successfully" |}
  end.

(** ** The suggestion route *)

Record ChatMessage := mkChatMessage { role : pystr; content : pystr }.

Record ChatRequest := mkChatRequest {
  model : pystr;
  messages : list ChatMessage;
  temperature : Q;
}.

(** What [client.chat.completions.create(...)] does: it returns a response,
    of which the handler reads [choices[i].message.content], or it raises.
    A response that cannot be read that far (a choice without a message)
    counts as raising what the reading raises. *)
Inductive outcome :=
| Returns (choices : list (option pystr))
| Raises (e : exn).

(** What the handler reads from outside the request: the environment
    variable, the provider, and the state of the [random] module. *)
Record Env := mkEnv {
  GROQ_API_KEY : option pystr;
  completions_create : ChatRequest → outcome;
  random_state : nat;
}.

(** What the handler does to the outside. *)
Inductive event :=
| Outbound (req : ChatRequest)
| Print_AI_Error (e : exn).

Record Ctx := mkCtx {
  db : Session;
  events : list event;
}.

(** [str.capitalize], left to the Unicode database of the interpreter. *)
Class StrMethods := { capitalize : pystr → pystr }.

Definition AI_SYSTEM_PROMPT : pystr := lit "
You are a creative executive chef. Your specialty is turning simple ingredients into diverse, restaurant-quality home meals.
Respond strictly in this format:
Recipe Name: [Name]
Ingredients:
- [Ingredient 1]
- [Ingredient 2]
Preparation Steps (step by step):
1. [Step 1]
2. [Step 2]
".

(** Truth value of [os.getenv(...)]: [None] and the empty string are false. *)
Definition truthy (v : option pystr) : bool :=
  match v with
  | Some (_ :: _) => true
  | _ => false
  end.

Definition chat_completions_create (env : Env) (req : ChatRequest)
  : py Ctx (list (option pystr)) :=
  λ c, let c' := {| db := db c; events := events c ++ [Outbound req] |} in
       match completions_create env req with
       | Returns choices => (Return choices, c')
       | Raises e => (Raise e, c')
       end.

(** [print(f'AI Error: {e}')]: the exception is written to standard output. *)
Definition print_AI_Error (e : exn) : py Ctx unit :=
  modify (λ c, {| db := db c; events := events c ++ [Print_AI_Error e] |}).

(** [try: body except Exception as e: handler(e)]; every [exn] is an
    [Exception]. *)
Definition try_except {S A} (body : py S A) (handler : exn → py S A) : py S A :=
  λ s, match body s with
       | (Return a, s') => (Return a, s')
       | (Raise e, s') => handler e s'
       end.

(** [random.choice(seq)]: the element at an index below [len(seq)] that the
    generator's state determines. *)
Definition random_choice {S A} (rnd : nat) (seq : list A) : py S A :=
  match seq !! (rnd mod length seq)%nat with
  | Some x => ret x
  | None => raise (Exception "IndexError" [])
  end.

Definition styles : list pystr :=
  [lit "Roasted"; lit "Pan-Seared"; lit "Gourmet"; lit "Chef's Special"].

Definition steps_header : pystr := lit "Preparation Steps (step by step):".

Definition LF : pystr := [10].

(** The text the [except] branch builds. *)
Definition fallback_text (style main_ing user_ingredients : pystr) : pystr :=
  (lit "Recipe Name: " ++ style ++ lit " " ++ main_ing ++ lit " (Local Chef Mode)" ++ LF ++ LF)
  ++ (lit "Note: [AI Service Busy - Using Local Intelligence]" ++ LF ++ LF)
  ++ (steps_header ++ LF)
  ++ (lit "1. Prepare your " ++ user_ingredients ++ lit "." ++ LF)
  ++ (lit "2. Saut" ++ [233] ++ lit " in a hot pan with oil until tender." ++ LF)
  ++ (lit "3. Season to taste and serve beautifully." ++ LF).

Record Suggestion := mkSuggestion { suggestion : option pystr }.

Definition suggest_request (user_ingredients : pystr) : ChatRequest :=
  {| model := lit "llama3-8b-8192";
     messages := [ {| role := lit "system"; content := AI_SYSTEM_PROMPT |};
                   {| role := lit "user";
                      content := lit "Ingredients: " ++ user_ingredients |} ];
     temperature := 8 # 10 |}.

Definition suggest_ai_recipe `{StrMethods} (env : Env) (data : IngredientList.t)
  : py Ctx Suggestion :=
  let user_ingredients := join (lit ", ") (IngredientList.ingredients data) in
  let api_key := GROQ_API_KEY env in
  if negb (truthy api_key) then
    raise (HTTPException 400 (lit "GROQ API Key is missing in environment variables."))
  else
    try_except
      (choices <- chat_completions_create env (suggest_request user_ingredients) ;;
       match choices with
       | recipe_text :: _ => ret {| suggestion := recipe_text |}
       | [] => raise (Exception "IndexError" [])
       end)
      (λ e,
         print_AI_Error e ;;
         style <- random_choice (random_state env) styles ;;
         let main_ing :=
           match IngredientList.ingredients data with
           | first :: _ => capitalize first
           | [] => lit "Vegetable"
           end in
         ret {| suggestion := Some (fallback_text style main_ing user_ingredients) |}).

(** ** The HTTP routes *)

Inductive http_response (A : Type) :=
| HTTP_200 (body : A)
| HTTP_error (status_code : Z) (detail : pystr)
| HTTP_500.
Arguments HTTP_200 {A} body.
Arguments HTTP_error {A} status_code detail.
Arguments HTTP_500 {A}.

(** The body of a response is rendered as JSON and encoded to UTF-8
    ([json.dumps(content, ensure_ascii=False).encode('utf-8')]);
    [renders a] tells whether that succeeds for [a]: every string in it must
    have a UTF-8 encoding. *)
Class Body (A : Type) := renders : A → bool.

Global Instance Recipe_body : Body Recipe.t :=
  λ r, utf8 (Recipe.name r) && forallb utf8 (Recipe.ingredients r) && utf8 (Recipe.steps r).

Global Instance list_body {A} `{Body A} : Body (list A) := forallb renders.

Global Instance Message_body : Body Message := λ m, utf8 (message m).

Global Instance Suggestion_body : Body Suggestion :=
  λ x, match suggestion x with Some text => utf8 text | None => true end.

(** FastAPI's answer to what a handler returned or raised: a body that
    cannot be encoded, like any exception other than [HTTPException], gives
    a 500. *)
Definition respond {A} `{Body A} (r : result A) : http_response A :=
  match r with
  | Return a => if renders a then HTTP_200 a else HTTP_500
  | Raise (HTTPException sc d) => if utf8 d then HTTP_error sc d else HTTP_500
  | Raise (Exception _ _) => HTTP_500
  end.

(** What lives across requests: the database file and the outside world. *)
Record Server := mkServer {
  recipes_db : table;
  outside : list event;
}.

(** [Depends(get_db)]: a session is opened for the request and closed after
    it; the response model is applied to what the handler returned.  A
    [table] value with a rowid beyond 64 bits stands for no state of
    [recipes.db]: from such a value the route answers 500 and changes
    nothing. *)
Definition with_db {A} `{Body A} (random : option Z) (handler : py Session A)
    (srv : Server) : http_response A * Server :=
  if sqlite_table (recipes_db srv) then
    let '(r, s) := handler (SessionLocal (recipes_db srv) random) in
    (respond r, {| recipes_db := close s; outside := outside srv |})
  else (HTTP_500, srv).

(** The handlers of [GET] and [DELETE] insert nothing: the engine's search
    for a rowid does not run. *)
Definition GET_recipes : Server → http_response (list Recipe.t) * Server :=
  with_db None (recipes <- get_recipes ;; map_each recipes serialize_Recipe).

Definition POST_recipes (random : option Z) (recipe : RecipeCreate.t)
  : Server → http_response Recipe.t * Server :=
  with_db random (db_recipe <- create_recipe recipe ;; serialize_Recipe db_recipe).

Definition DELETE_recipes (recipe_id : Z) : Server → http_response Message * Server :=
  with_db None (delete_recipe recipe_id).

Definition POST_ai_recipe `{StrMethods} (env : Env) (data : IngredientList.t)
  (srv : Server) : http_response Suggestion * Server :=
  let '(r, c) := suggest_ai_recipe env data
                   {| db := SessionLocal (recipes_db srv) None; events := outside srv |} in
  (respond r, {| recipes_db := close (db c); outside := events c |}).

(** A request to the service, with what the outside decides while it is
    served, and the state it leaves. *)
Inductive request :=
| Get
| Post (random : option Z) (recipe : RecipeCreate.t)
| Delete (recipe_id : Z)
| Suggest (env : Env) (data : IngredientList.t).

Definition serve `{StrMethods} (q : request) (srv : Server) : Server :=
  match q with
  | Get => (GET_recipes srv).2
  | Post random recipe => (POST_recipes random recipe srv).2
  | Delete recipe_id => (DELETE_recipes recipe_id srv).2
  | Suggest env data => (POST_ai_recipe env data srv).2
  end.

Definition run `{StrMethods} (qs : list request) (srv : Server) : Server :=
  foldl (λ s q, serve q s) srv qs.

(** ** Reading a suggestion text *)








(** [x in s] *)
Definition occurs_in (x s : pystr) : Prop := ∃ p q, s = p ++ x ++ q.

(** [str.capitalize] on ASCII text: the first letter in upper case, the
    others in lower case. *)
Definition ascii_upper (c : N) : N := if (97 <=? c) && (c <=? 122) then c - 32 else c.
Definition ascii_lower (c : N) : N := if (65 <=? c) && (c <=? 90) then c + 32 else c.
Definition ascii_capitalize (s : pystr) : pystr :=
  match s with
  | [] => []
  | c :: s' => ascii_upper c :: map ascii_lower s'
  end.

Definition AsciiStr : StrMethods := {| capitalize := ascii_capitalize |}.

(** ** What the proofs speak of *)

(** A code point as [chr] of the decoded surrogate pair would give it. *)
Definition wrap (c : N) : N :=
  if c <? 0x10000 then c else 0x10000 + (c - 0x10000) mod 0x100000.

(** What [json.loads] returns for the [json.dumps] of a string: a high
    surrogate directly followed by a low one comes back as one code point. *)
Fixpoint canon (s : pystr) : pystr :=
  match s with
  | [] => []
  | c :: s' =>
      match s' with
      | d :: s'' =>
          if Py_UNICODE_IS_HIGH_SURROGATE c && Py_UNICODE_IS_LOW_SURROGATE d
          then Py_UNICODE_JOIN_SURROGATES c d :: canon s''
          else wrap c :: canon s'
      | [] => [wrap c]
      end
  end.


(** The scanner's result when the next decoded character is [uni] and the
    rest of the string is [s]. *)
Definition single (uni : N) (s : pystr) : option (pystr * pystr) :=
  '(r, rest) ← Json.scanstring s; Some (uni :: r, rest).

(** The shapes [escape_char] produces, with what the scanner needs to know
    about each. *)
Inductive char_class (c : N) : pystr → Prop :=
| cc_plain : c ≠ 34 → c ≠ 92 → 32 ≤ c → c ≤ 126 → char_class c [c]
| cc_short e : e ≠ 117 → Json.BACKSLASH e = Some c → c < 128 → char_class c [92; e]
| cc_bmp : c < 0x10000 → char_class c (Json.u_escape c)
| cc_astral s1 s2 :
    0x10000 ≤ c → s1 < 0x10000 → s2 < 0x10000 →
    Py_UNICODE_IS_HIGH_SURROGATE s1 = true →
    Py_UNICODE_IS_LOW_SURROGATE s2 = true →
    Py_UNICODE_JOIN_SURROGATES s1 s2 = wrap c →
    char_class c (Json.u_escape s1 ++ Json.u_escape s2).

(** The row [POST /recipes] writes under the rowid [i]. *)
Definition stored_row (i : Z) (recipe : RecipeCreate.t) : Row :=
  mkRow i (RecipeCreate.name recipe)
        (Json.dumps (RecipeCreate.ingredients recipe)) (RecipeCreate.steps recipe).

(** The record [POST /recipes] answers with: what [json.loads] reads back
    from the column it has just written. *)
Definition created (i : Z) (recipe : RecipeCreate.t) : Recipe.t :=
  Recipe.mk i (RecipeCreate.name recipe)
            (map canon (RecipeCreate.ingredients recipe)) (RecipeCreate.steps recipe).

(** A stored row that the listing can show: its column decodes, and the
    record it gives can be encoded. *)
Definition listable (r : Row) : Prop :=
  ∃ ings, Json.loads (row_ingredients r) = Some ings
          ∧ renders (Recipe.mk (row_id r) (row_name r) ings (row_steps r)) = true.

(** A request that creates no recipe with a surrogate code point in an
    ingredient. *)
Definition scalar_request (q : request) : bool :=
  match q with
  | Post _ recipe => forallb utf8 (RecipeCreate.ingredients recipe)
  | _ => true
  end.

(** The record a stored row is listed as, given its decoded ingredients. *)
Definition as_recipe (r : Row) (l : list pystr) : Recipe.t :=
  Recipe.mk (row_id r) (row_name r) l (row_steps r).

(** The ingredients columns of the rows, decoded; [None] if one is not a
    JSON array of strings. *)
Fixpoint decode_all (t : table) : option (list (list pystr)) :=
  match t with
  | [] => Some []
  | r :: t' =>
      match Json.loads (row_ingredients r), decode_all t' with
      | Some l, Some ls => Some (l :: ls)
      | _, _ => None
      end
  end.

Definition listing (t : table) : option (list Recipe.t) :=
  zip_with as_recipe t <$> decode_all t.

(** The object of a row once the loop of [get_recipes] has passed it. *)
Definition listed (r : Row) (l : list pystr) : entry :=
  {| obj := RecipeDB.mk (Some (row_id r)) (row_name r) (PyList l) (row_steps r);
     state := Persistent; modified := true |}.

(** The body of the loop of [get_recipes]. *)
Definition loop_body (r : ref) : py Session unit :=
  (v <- get_ingredients r ;; l <- json_loads v ;; set_ingredients r l)%py.

(** The ways the [try] block fails: the call raises, or the response has no
    choice to index. *)
Inductive provider_fails : outcome → exn → Prop :=
| fails_raises e : provider_fails (Raises e) e
| fails_no_choice : provider_fails (Returns []) (Exception "IndexError" []).

Definition user_ingredients (data : IngredientList.t) : pystr :=
  join (lit ", ") (IngredientList.ingredients data).

Definition main_ing `{StrMethods} (data : IngredientList.t) : pystr :=
  match IngredientList.ingredients data with
  | first :: _ => capitalize first
  | [] => lit "Vegetable"
  end.

(** The style [random.choice] returns in a given state of the generator. *)
Definition drawn_style (env : Env) : pystr :=
  nth (random_state env mod length styles) styles [].

Definition fallback `{StrMethods} (env : Env) (data : IngredientList.t) : Suggestion :=
  {| suggestion := Some (fallback_text (drawn_style env) (main_ing data)
                                       (user_ingredients data)) |}.

(** The primary key is unique and every [ingredients] column holds a JSON
    array of strings. *)
Definition consistent (t : table) : Prop :=
  NoDup (map row_id t) ∧ Forall (λ r, is_Some (Json.loads (row_ingredients r))) t.




(** ** Sample inputs *)

Definition srv0 : Server := {| recipes_db := []; outside := [] |}.

Definition soup : RecipeCreate.t :=
  RecipeCreate.mk (lit "Soup") [lit "carrot"; lit "onion"; lit "carrot"] (lit "Boil.").

Definition unreachable_provider : ChatRequest → outcome :=
  λ _, Raises (Exception "APIConnectionError" (lit "Connection error.")).

Definition env_down (rnd : nat) : Env :=
  {| GROQ_API_KEY := Some (lit "gsk_test");
     completions_create := unreachable_provider;
     random_state := rnd |}.

Definition rice_and_egg : IngredientList.t := IngredientList.mk [lit "rice"; lit "egg"].


(** Strings with surrogate code points: a high surrogate alone, and a high
    surrogate followed by a low one (U+1F600 written as two code points). *)
Definition lone_surrogate : pystr := [0xD83D].
Definition surrogate_pair : pystr := [0xD83D; 0xDE00].

(** A table whose largest rowid is the largest there is. *)
Definition srv_full : Server :=
  {| recipes_db := [mkRow 9223372036854775807 (lit "Last") (lit "[]") (lit "Wait.")];
     outside := [] |}.


(** ** Further notions *)

(** The ids of the rows ascend strictly, and all lie above [lo]. *)
Fixpoint ascending (lo : Z) (t : table) : Prop :=
  match t with
  | [] => True
  | r :: t' => (lo < row_id r)%Z ∧ ascending (row_id r) t'
  end.

(** A printable ASCII character, space to tilde. *)
Definition printable_ascii (c : N) : bool := (32 <=? c) && (c <=? 126).

(** A provider that answers with one choice. *)
Definition env_up (recipe_text : option pystr) : Env :=
  {| GROQ_API_KEY := Some (lit "gsk_test");
     completions_create := λ _, Returns [recipe_text];
     random_state := 0 |}.

(** A database with a row that the service did not write. *)
Definition srv_foreign : Server :=
  {| recipes_db := [mkRow 1 (lit "Soup") (lit "carrot, onion") (lit "Boil.")];
     outside := [] |}.

(** The database after [soup] was created in an empty one. *)
Definition srv_soup : Server := (POST_recipes None soup srv0).2.

(** * Properties *)

(** ** Arithmetic of the escapes *)

Section Bits.

Lemma land_shiftl_small x y k : y < 2 ^ k → N.land (N.shiftl x k) y = 0.
Proof.
  intros Hy. apply N.bits_inj_0. intros n. rewrite N.land_spec.
  destruct (N.lt_ge_cases n k) as [Hn | Hn].
  - rewrite N.shiftl_spec_low by exact Hn. reflexivity.
  - replace (N.testbit y n) with false; [apply andb_false_r |].
    symmetry. destruct (N.eq_dec y 0) as [-> | Hy0]; [apply N.bits_0 |].
    apply N.bits_above_log2. apply N.log2_lt_pow2; [lia |].
    eapply N.lt_le_trans; [exact Hy |]. apply N.pow_le_mono_r; lia.
Qed.

Lemma lor_shiftl_small x y k : y < 2 ^ k → N.lor (N.shiftl x k) y = x * 2 ^ k + y.
Proof.
  intros Hy. rewrite <- N.lxor_lor by (apply land_shiftl_small; exact Hy).
  rewrite <- N.add_nocarry_lxor by (apply land_shiftl_small; exact Hy).
  rewrite N.shiftl_mul_pow2. reflexivity.
Qed.

Lemma land_3FF x : N.land x 0x3FF = x mod 1024.
Proof. change 0x3FF with (N.ones 10). rewrite N.land_ones. reflexivity. Qed.

Lemma lor_D800 v : v < 1024 → N.lor 0xD800 v = 0xD800 + v.
Proof.
  intros Hv. change 0xD800 with (N.shiftl 54 10) at 1.
  rewrite lor_shiftl_small by exact Hv. reflexivity.
Qed.

Lemma lor_DC00 v : v < 1024 → N.lor 0xDC00 v = 0xDC00 + v.
Proof.
  intros Hv. change 0xDC00 with (N.shiftl 55 10) at 1.
  rewrite lor_shiftl_small by exact Hv. reflexivity.
Qed.

End Bits.

(** ** json.loads after json.dumps *)

Module JsonFacts.
Import Json.

Lemma hexval_hexdigit d : d < 16 → hexval (hexdigit d) = Some d.
Proof.
  intros Hd. unfold hexdigit, hexval.
  destruct (N.ltb_spec d 10) as [H | H].
  - replace ((48 <=? 48 + d) && (48 + d <=? 57)) with true.
    + f_equal. lia.
    + symmetry. apply andb_true_intro. split; apply N.leb_le; lia.
  - replace ((48 <=? 87 + d) && (87 + d <=? 57)) with false.
    + replace ((97 <=? 87 + d) && (87 + d <=? 102)) with true.
      * f_equal. lia.
      * symmetry. apply andb_true_intro. split; apply N.leb_le; lia.
    + symmetry. apply andb_false_intro2. apply N.leb_gt. lia.
Qed.

(** The four digits written by [u_escape] are read back as the number. *)
Lemma decode_u_escape n :
  n < 0x10000 →
  decode_uXXXX (hexdigit (n / 4096 mod 16)) (hexdigit (n / 256 mod 16))
               (hexdigit (n / 16 mod 16)) (hexdigit (n mod 16)) = Some n.
Proof.
  intros Hn. unfold decode_uXXXX.
  rewrite !hexval_hexdigit by (apply N.mod_lt; lia). cbn [mbind option_bind].
  f_equal.
  rewrite !(lor_shiftl_small _ _ 4) by (apply N.mod_lt; lia).
  change (2 ^ 4) with 16.
  pose proof (N.div_mod n 16 ltac:(lia)) as E0.
  pose proof (N.div_mod (n / 16) 16 ltac:(lia)) as E1.
  pose proof (N.div_mod (n / 256) 16 ltac:(lia)) as E2.
  replace (n / 16 / 16) with (n / 256) in E1
    by (rewrite N.Div0.div_div; reflexivity).
  replace (n / 256 / 16) with (n / 4096) in E2
    by (rewrite N.Div0.div_div; reflexivity).
  assert (E3 : n / 4096 mod 16 = n / 4096).
  { apply N.mod_small. apply N.Div0.div_lt_upper_bound. lia. }
  lia.
Qed.
End JsonFacts.
Module ScanFacts.
Import Json.


Lemma scan_quote s : scanstring (34 :: s) = Some ([], s).
Proof. reflexivity. Qed.

Lemma scan_plain c s : c ≠ 34 → c ≠ 92 → 0x1F < c → scanstring (c :: s) = single c s.
Proof.
  intros H1 H2 H3. cbn [scanstring].
  rewrite (proj2 (N.eqb_neq c 34) H1), (proj2 (N.eqb_neq c 92) H2).
  rewrite (proj2 (N.leb_gt c 0x1F) H3). reflexivity.
Qed.

Lemma scan_backslash e ch s :
  e ≠ 117 → BACKSLASH e = Some ch → scanstring (92 :: e :: s) = single ch s.
Proof.
  intros H1 H2. cbn [scanstring]. change (92 =? 34) with false. change (92 =? 92) with true.
  cbn match. rewrite (proj2 (N.eqb_neq e 117) H1), H2. reflexivity.
Qed.

Ltac scan_u H :=
  unfold single; cbn [scanstring];
  change (92 =? 34) with false; change (92 =? 92) with true;
  change (117 =? 117) with true; cbn match; rewrite H; cbn [mbind option_bind].

(** After a [\uXXXX] whose value is not a high surrogate. *)
Lemma scan_u_nonhigh a b c d uni s :
  decode_uXXXX a b c d = Some uni → Py_UNICODE_IS_HIGH_SURROGATE uni = false →
  s ≠ [] →
  scanstring (92 :: 117 :: a :: b :: c :: d :: s) = single uni s.
Proof.
  intros Hd Hh Hs. destruct s as [|x0 s]; [done |].
  destruct s as [|x1 [|x2 [|x3 [|x4 [|x5 [|x6 s]]]]]];
    scan_u Hd; rewrite ?Hh; reflexivity.
Qed.

(** After a [\uXXXX] that is not followed by a backslash. *)
Lemma scan_u_other a b c d uni x s :
  decode_uXXXX a b c d = Some uni → x ≠ 92 →
  scanstring (92 :: 117 :: a :: b :: c :: d :: x :: s) = single uni (x :: s).
Proof.
  intros Hd Hx. apply N.eqb_neq in Hx.
  destruct s as [|x1 [|x2 [|x3 [|x4 [|x5 [|x6 s]]]]]];
    scan_u Hd; rewrite ?Hx, ?andb_false_r; reflexivity.
Qed.

(** After a [\uXXXX] followed by another kind of escape. *)
Lemma scan_u_other2 a b c d uni y s :
  decode_uXXXX a b c d = Some uni → y ≠ 117 →
  scanstring (92 :: 117 :: a :: b :: c :: d :: 92 :: y :: s) = single uni (92 :: y :: s).
Proof.
  intros Hd Hy. apply N.eqb_neq in Hy.
  destruct s as [|x2 [|x3 [|x4 [|x5 [|x6 s]]]]];
    scan_u Hd; rewrite ?Hy, ?andb_false_r; reflexivity.
Qed.

(** A high surrogate followed by a low one: the two escapes are joined. *)
Lemma scan_u_pair a b c d uni a2 b2 c2 d2 uni2 s :
  decode_uXXXX a b c d = Some uni → Py_UNICODE_IS_HIGH_SURROGATE uni = true →
  decode_uXXXX a2 b2 c2 d2 = Some uni2 → Py_UNICODE_IS_LOW_SURROGATE uni2 = true →
  s ≠ [] →
  scanstring (92 :: 117 :: a :: b :: c :: d :: 92 :: 117 :: a2 :: b2 :: c2 :: d2 :: s)
  = '(r, rest) ← scanstring s; Some (Py_UNICODE_JOIN_SURROGATES uni uni2 :: r, rest).
Proof.
  intros Hd Hh Hd2 Hl Hs. destruct s as [|x0 s]; [done |].
  scan_u Hd. rewrite Hh. cbn [andb]. rewrite Hd2. cbn [mbind option_bind].
  rewrite Hl. reflexivity.
Qed.

(** A [\uXXXX] followed by a [\uXXXX] that is not a low surrogate. *)
Lemma scan_u_notlow a b c d uni a2 b2 c2 d2 uni2 s :
  decode_uXXXX a b c d = Some uni →
  decode_uXXXX a2 b2 c2 d2 = Some uni2 → Py_UNICODE_IS_LOW_SURROGATE uni2 = false →
  scanstring (92 :: 117 :: a :: b :: c :: d :: 92 :: 117 :: a2 :: b2 :: c2 :: d2 :: s)
  = single uni (92 :: 117 :: a2 :: b2 :: c2 :: d2 :: s).
Proof.
  intros Hd Hd2 Hl.
  destruct s as [|x0 s]; scan_u Hd; [reflexivity |].
  destruct (Py_UNICODE_IS_HIGH_SURROGATE uni); [| reflexivity].
  cbn [andb]. rewrite Hd2. cbn [mbind option_bind]. rewrite Hl. reflexivity.
Qed.
End ScanFacts.

Module EscapeFacts.
Import Json.


Lemma surrogates_of_astral c :
  0x10000 ≤ c →
  let n := c - 0x10000 in
  let s1 := N.lor 0xD800 (N.land (N.shiftr n 10) 0x3FF) in
  let s2 := N.lor 0xDC00 (N.land n 0x3FF) in
  s1 = 0xD800 + n / 1024 mod 1024 ∧ s2 = 0xDC00 + n mod 1024.
Proof.
  intros Hc n s1 s2. subst s1 s2. rewrite !land_3FF, N.shiftr_div_pow2.
  change (2 ^ 10) with 1024.
  rewrite lor_D800, lor_DC00 by (apply N.mod_lt; lia). done.
Qed.

Lemma join_surrogates n :
  Py_UNICODE_JOIN_SURROGATES (0xD800 + n / 1024 mod 1024) (0xDC00 + n mod 1024)
  = 0x10000 + n mod 0x100000.
Proof.
  unfold Py_UNICODE_JOIN_SURROGATES. rewrite !land_3FF.
  pose proof (N.mod_lt (n / 1024) 1024 ltac:(lia)) as H1.
  pose proof (N.mod_lt n 1024 ltac:(lia)) as H0.
  replace ((0xD800 + n / 1024 mod 1024) mod 1024) with (n / 1024 mod 1024).
  2:{ change 0xD800 with (54 * 1024). rewrite N.add_comm, N.Div0.mod_add.
      symmetry. apply N.mod_small, H1. }
  replace ((0xDC00 + n mod 1024) mod 1024) with (n mod 1024).
  2:{ change 0xDC00 with (55 * 1024). rewrite N.add_comm, N.Div0.mod_add.
      symmetry. apply N.mod_small, H0. }
  rewrite lor_shiftl_small by exact H0. change (2 ^ 10) with 1024.
  change 0x100000 with (1024 * 1024). rewrite N.Div0.mod_mul_r. lia.
Qed.

Lemma classify c : char_class c (escape_char c).
Proof.
  unfold escape_char, replace.
  destruct (ESCAPE_DCT c) as [e|] eqn:Hdct.
  - unfold ESCAPE_DCT in Hdct.
    repeat match type of Hdct with
           | (if ?x =? ?k then _ else _) = _ =>
               destruct (N.eqb_spec x k) as [-> | ?];
               [inversion Hdct; subst e; cbn; by eapply cc_short |]
           end.
    discriminate.
  - assert (Hne : c ≠ 92 ∧ c ≠ 34).
    { unfold ESCAPE_DCT in Hdct.
      destruct (N.eqb_spec c 92); [discriminate |].
      destruct (N.eqb_spec c 34); [discriminate |]. done. }
    destruct Hne as [H92 H34]. unfold ESCAPE_ASCII.
    rewrite (proj2 (N.eqb_neq _ _) H92), (proj2 (N.eqb_neq _ _) H34). cbn [orb].
    destruct (N.leb_spec 32 c) as [H32 | H32]; cbn [andb negb].
    + destruct (N.leb_spec c 126) as [H126 | H126]; cbn [negb].
      * by apply cc_plain.
      * destruct (N.ltb_spec c 0x10000) as [Hb | Hb]; [by apply cc_bmp |].
        destruct (surrogates_of_astral c Hb) as [E1 E2]. cbv zeta in E1, E2.
        cbv zeta. rewrite E1, E2.
        clear E1 E2.
        pose proof (N.mod_lt ((c - 0x10000) / 1024) 1024 ltac:(lia)) as H1.
        pose proof (N.mod_lt (c - 0x10000) 1024 ltac:(lia)) as H0.
        apply cc_astral.
        -- exact Hb.
        -- revert H1. generalize ((c - 0x10000) / 1024 mod 1024). intros; lia.
        -- revert H0. generalize ((c - 0x10000) mod 1024). intros; lia.
        -- unfold Py_UNICODE_IS_HIGH_SURROGATE. apply andb_true_intro.
           revert H1. generalize ((c - 0x10000) / 1024 mod 1024). intros.
           split; apply N.leb_le; lia.
        -- unfold Py_UNICODE_IS_LOW_SURROGATE. apply andb_true_intro.
           revert H0. generalize ((c - 0x10000) mod 1024). intros.
           split; apply N.leb_le; lia.
        -- rewrite join_surrogates. unfold wrap.
           rewrite (proj2 (N.ltb_ge _ _) Hb). reflexivity.
    + destruct (N.ltb_spec c 0x10000) as [Hb | Hb]; [by apply cc_bmp | lia].
Qed.
End EscapeFacts.

Module RoundTrip.
Import Json JsonFacts ScanFacts EscapeFacts.

Lemma high_bounds c : Py_UNICODE_IS_HIGH_SURROGATE c = true ↔ 0xD800 ≤ c ∧ c ≤ 0xDBFF.
Proof.
  unfold Py_UNICODE_IS_HIGH_SURROGATE. rewrite andb_true_iff, !N.leb_le. done.
Qed.

Lemma low_bounds c : Py_UNICODE_IS_LOW_SURROGATE c = true ↔ 0xDC00 ≤ c ∧ c ≤ 0xDFFF.
Proof.
  unfold Py_UNICODE_IS_LOW_SURROGATE. rewrite andb_true_iff, !N.leb_le. done.
Qed.

Lemma not_high c : c < 0xD800 ∨ 0xDBFF < c → Py_UNICODE_IS_HIGH_SURROGATE c = false.
Proof.
  intros H. apply not_true_is_false. rewrite high_bounds. lia.
Qed.

Lemma not_low c : c < 0xDC00 ∨ 0xDFFF < c → Py_UNICODE_IS_LOW_SURROGATE c = false.
Proof.
  intros H. apply not_true_is_false. rewrite low_bounds. lia.
Qed.

Lemma wrap_bmp c : c < 0x10000 → wrap c = c.
Proof. intros H. unfold wrap. by rewrite (proj2 (N.ltb_lt _ _) H). Qed.

Lemma canon_cons_not_high c s :
  Py_UNICODE_IS_HIGH_SURROGATE c = false → canon (c :: s) = wrap c :: canon s.
Proof. intros H. destruct s; cbn [canon]; [done |]. by rewrite H. Qed.

Lemma canon_cons_not_low c d s :
  Py_UNICODE_IS_LOW_SURROGATE d = false →
  canon (c :: d :: s) = wrap c :: canon (d :: s).
Proof. intros H. cbn [canon]. by rewrite H, andb_false_r. Qed.

Lemma escape_cons c s : escape (c :: s) = escape_char c ++ escape s.
Proof. reflexivity. Qed.

Lemma single_Some uni s r rest :
  scanstring s = Some (r, rest) → single uni s = Some (uni :: r, rest).
Proof. intros H. unfold single. by rewrite H. Qed.

Lemma u_escape_app n s :
  u_escape n ++ s
  = 92 :: 117 :: hexdigit (n / 4096 mod 16) :: hexdigit (n / 256 mod 16)
      :: hexdigit (n / 16 mod 16) :: hexdigit (n mod 16) :: s.
Proof. reflexivity. Qed.

Ltac side :=
  solve [ done
        | apply decode_u_escape; done
        | match goal with |- ?l ++ _ ≠ [] => by destruct l end
        | lia ].

(** Scanning an escaped string up to its closing quote yields [canon]. *)
Lemma scanstring_escape s : ∀ rest,
  scanstring (escape s ++ 34 :: rest) = Some (canon s, rest).
Proof.
  remember (length s) as n eqn:Hn. revert s Hn.
  induction n as [n IH] using lt_wf_ind. intros s Hn rest. subst n.
  destruct s as [|c s]; [reflexivity |].
  assert (IHs : scanstring (escape s ++ 34 :: rest) = Some (canon s, rest)).
  { eapply IH; [| reflexivity]. cbn. lia. }
  rewrite escape_cons, <- app_assoc.
  destruct (classify c) as [H34 H92 Hlo Hhi | e He Hb Hc | Hc | s1 s2 Hc H1 H2 Hh Hl Hj].
  - cbn [app]. rewrite scan_plain by (try done; lia).
    rewrite canon_cons_not_high by (apply not_high; lia).
    rewrite wrap_bmp by lia. by apply single_Some.
  - cbn [app]. rewrite (scan_backslash e c) by done.
    rewrite canon_cons_not_high by (apply not_high; lia).
    rewrite wrap_bmp by lia. by apply single_Some.
  - rewrite u_escape_app.
    destruct (Py_UNICODE_IS_HIGH_SURROGATE c) eqn:Hhigh.
    2:{ rewrite (scan_u_nonhigh _ _ _ _ c) by side.
        rewrite canon_cons_not_high by done. rewrite wrap_bmp by done.
        by apply single_Some. }
    destruct s as [|d s].
    { cbn [escape flat_map app canon]. rewrite (scan_u_other _ _ _ _ c) by side.
      rewrite wrap_bmp by done. by apply single_Some. }
    assert (IHs' : scanstring (escape s ++ 34 :: rest) = Some (canon s, rest)).
    { eapply IH; [| reflexivity]. cbn. lia. }
    rewrite escape_cons, <- app_assoc in IHs |- *.
    destruct (classify d) as [G34 G92 Glo Ghi | e He Hb Hd | Hd | t1 t2 Hd G1 G2 Gh Gl Gj].
    + cbn [app] in IHs |- *.
      rewrite (scan_u_other _ _ _ _ c) by side.
      rewrite canon_cons_not_low by (apply not_low; lia).
      rewrite wrap_bmp by done. by apply single_Some.
    + cbn [app] in IHs |- *.
      rewrite (scan_u_other2 _ _ _ _ c) by side.
      rewrite canon_cons_not_low by (apply not_low; lia).
      rewrite wrap_bmp by done. by apply single_Some.
    + rewrite u_escape_app in IHs |- *.
      destruct (Py_UNICODE_IS_LOW_SURROGATE d) eqn:Hlow.
      * rewrite (scan_u_pair _ _ _ _ c _ _ _ _ d) by side.
        rewrite IHs'. cbn [canon]. by rewrite Hhigh, Hlow.
      * rewrite (scan_u_notlow _ _ _ _ c _ _ _ _ d) by side.
        rewrite canon_cons_not_low by done. rewrite wrap_bmp by done.
        by apply single_Some.
    + rewrite <- app_assoc, u_escape_app in IHs |- *.
      assert (Py_UNICODE_IS_LOW_SURROGATE t1 = false) as Ht1.
      { apply not_low. apply high_bounds in Gh. lia. }
      rewrite (scan_u_notlow _ _ _ _ c _ _ _ _ t1) by side.
      rewrite canon_cons_not_low by (apply not_low; lia).
      rewrite wrap_bmp by done. by apply single_Some.
  - rewrite <- app_assoc, !u_escape_app.
    rewrite (scan_u_pair _ _ _ _ s1 _ _ _ _ s2) by side.
    rewrite IHs. rewrite canon_cons_not_high by (apply not_high; lia).
    by rewrite Hj.
Qed.
End RoundTrip.

Module LoadsDumps.
Import Json RoundTrip.

Lemma skip_ws_quote s : skip_ws (34 :: s) = 34 :: s.
Proof. reflexivity. Qed.

Lemma join_encoded_cons x l :
  ∃ s, join item_separator (map encode_basestring_ascii (x :: l)) = 34 :: s.
Proof. destruct l; cbn; eauto. Qed.

(** Every element costs the scanner at least one character. *)
Lemma length_join_encoded l :
  (length l ≤ length (join item_separator (map encode_basestring_ascii l)))%nat.
Proof.
  induction l as [|x l IH]; [cbn; lia |].
  destruct l as [|y l].
  - cbn [map join]. unfold encode_basestring_ascii. cbn [length]. lia.
  - change (join item_separator (map encode_basestring_ascii (x :: y :: l)))
      with (encode_basestring_ascii x ++ item_separator
            ++ join item_separator (map encode_basestring_ascii (y :: l))).
    rewrite !length_app. unfold item_separator at 1. cbn [length] in IH |- *. lia.
Qed.

Lemma parse_items_last fuel s v rest :
  scanstring s = Some (v, 93 :: rest) →
  parse_items (S fuel) (34 :: s) = Some ([v], rest).
Proof. intros H. cbn [parse_items]. change (34 =? 34) with true. by rewrite H. Qed.

Lemma parse_items_more fuel s v s' :
  scanstring s = Some (v, 44 :: 32 :: 34 :: s') →
  parse_items (S fuel) (34 :: s)
  = '(vs, rest) ← parse_items fuel (34 :: s'); Some (v :: vs, rest).
Proof. intros H. cbn [parse_items]. change (34 =? 34) with true. by rewrite H. Qed.

Lemma parse_items_encoded l : ∀ fuel rest,
  l ≠ [] → (length l ≤ fuel)%nat →
  parse_items fuel (join item_separator (map encode_basestring_ascii l) ++ 93 :: rest)
  = Some (map canon l, rest).
Proof.
  induction l as [|x l IH]; [done |]. intros fuel rest _ Hfuel.
  destruct fuel as [|fuel]; [cbn in Hfuel; lia |].
  destruct l as [|y l].
  - cbn [map join]. unfold encode_basestring_ascii. cbn [app].
    apply parse_items_last. rewrite <- app_assoc. apply scanstring_escape.
  - change (join item_separator (map encode_basestring_ascii (x :: y :: l)))
      with (encode_basestring_ascii x ++ item_separator
            ++ join item_separator (map encode_basestring_ascii (y :: l))).
    destruct (join_encoded_cons y l) as [s Hs].
    specialize (IH fuel rest ltac:(done) ltac:(cbn in Hfuel |- *; lia)).
    rewrite Hs in IH |- *.
    unfold encode_basestring_ascii, item_separator. cbn [app].
    rewrite (parse_items_more fuel _ (canon x) (s ++ 93 :: rest)).
    + cbn [app] in IH. by rewrite IH.
    + rewrite <- !app_assoc. cbn [app]. apply scanstring_escape.
Qed.

Lemma loads_array s l : parse_array s = Some (l, []) → loads (91 :: s) = Some l.
Proof.
  intros H. unfold loads. cbn [skip_ws]. change (is_ws 91) with false.
  change (91 =? 91) with true. cbn match. by rewrite H.
Qed.

Lemma parse_array_quote s :
  parse_array (34 :: s) = parse_items (length (34 :: s)) (34 :: s).
Proof. reflexivity. Qed.

(** What [json.loads] makes of [json.dumps(l)], for every list. *)
Lemma loads_dumps_canon l : loads (dumps l) = Some (map canon l).
Proof.
  unfold dumps. apply loads_array.
  destruct l as [|x l]; [reflexivity |].
  destruct (join_encoded_cons x l) as [s Hs].
  pose proof (length_join_encoded (x :: l)) as Hlen.
  pose proof (parse_items_encoded (x :: l) (length (34 :: s ++ [93])) []
                ltac:(done)) as H.
  rewrite Hs in H, Hlen |- *. cbn [app]. rewrite parse_array_quote.
  apply H. cbn [length] in Hlen |- *. rewrite length_app. lia.
Qed.

Lemma canon_unicode_text s : unicode_text s → canon s = s.
Proof.
  intros [Hstr Hpair]. induction s as [|c s IH]; [done |].
  apply Forall_cons in Hstr as [Hc Hs].
  assert (Hw : wrap c = c).
  { unfold wrap. destruct (N.ltb_spec c 0x10000) as [? | Hge]; [done |].
    rewrite N.mod_small by lia. lia. }
  destruct s as [|d s]; cbn [canon]; [by rewrite Hw |].
  cbn [no_surrogate_pair] in Hpair. apply andb_true_iff in Hpair as [Hcd Hrest].
  apply negb_true_iff in Hcd. rewrite Hcd, Hw. f_equal. by apply IH.
Qed.

(** [json.loads(json.dumps(l)) == l] on well-formed text. *)
Lemma loads_dumps l : Forall unicode_text l → loads (dumps l) = Some l.
Proof.
  intros Hl. rewrite loads_dumps_canon. f_equal.
  induction Hl as [|s l Hs _ IH]; [done |]. cbn [map].
  by rewrite canon_unicode_text, IH.
Qed.
End LoadsDumps.

(** ** The table *)

Section TableFacts.

Lemma foldr_max_ge a l : (a ≤ foldr Z.max a l)%Z.
Proof. induction l as [|x l IH]; cbn; lia. Qed.

Lemma foldr_max_elem a l x : x ∈ l → (x ≤ foldr Z.max a l)%Z.
Proof.
  induction l as [|y l IH]; intros Hx; [by apply elem_of_nil in Hx |].
  apply elem_of_cons in Hx as [-> | Hx]; cbn; [lia |].
  specialize (IH Hx). lia.
Qed.

Lemma foldr_max_in a l : foldr Z.max a l = a ∨ foldr Z.max a l ∈ l.
Proof.
  induction l as [|y l IH]; [by left |]. cbn [foldr].
  destruct (Z.max_spec y (foldr Z.max a l)) as [[_ ->] | [_ ->]].
  - destruct IH as [IH | IH]; [by left | right; apply elem_of_cons; by right].
  - right. apply elem_of_cons. by left.
Qed.

(** The largest rowid is a rowid of the table, and none is above it. *)
Lemma largest_rowid_ge t m r : largest_rowid t = Some m → r ∈ t → (row_id r ≤ m)%Z.
Proof.
  destruct t as [|r0 t]; [done |]. intros [= <-] Hr.
  apply elem_of_cons in Hr as [-> | Hr].
  - apply foldr_max_ge.
  - apply foldr_max_elem. by apply list_elem_of_fmap_2.
Qed.

Lemma largest_rowid_in (t : list Row) m :
  largest_rowid t = Some m → ∃ r, r ∈ t ∧ row_id r = m.
Proof.
  destruct t as [|r0 t]; [done |]. intros [= <-].
  destruct (foldr_max_in (row_id r0) (map row_id t)) as [-> | Hin].
  - exists r0. split; [apply elem_of_cons; by left | done].
  - apply list_elem_of_fmap in Hin as (r & Hr & Hin).
    exists r. split; [apply elem_of_cons; by right | done].
Qed.

Lemma in_int64_spec i :
  in_int64 i = true ↔ (-9223372036854775808 ≤ i ≤ 9223372036854775807)%Z.
Proof. unfold in_int64. rewrite andb_true_iff, !Z.leb_le. tauto. Qed.

Lemma sqlite_table_spec (t : list Row) :
  sqlite_table t = true ↔ ∀ r, r ∈ t → in_int64 (row_id r) = true.
Proof.
  unfold sqlite_table. rewrite forallb_forall. split; intros H r Hr; apply H.
  - by apply list_elem_of_In.
  - by apply list_elem_of_In.
Qed.

Lemma has_id_true i t : has_id i t = true ↔ ∃ r, r ∈ t ∧ row_id r = i.
Proof.
  unfold has_id. induction t as [|r t IH]; cbn [existsb].
  - split; [done | intros (r & Hr & _); by apply elem_of_nil in Hr].
  - rewrite orb_true_iff, IH, Z.eqb_eq. split.
    + intros [H | (r' & Hr' & Hi)]; [exists r | exists r']; split; try done;
        apply elem_of_cons; [by left | by right].
    + intros (r' & Hr' & Hi). apply elem_of_cons in Hr' as [-> | Hr']; [by left |].
      right. by exists r'.
Qed.

Lemma has_id_false i t : has_id i t = false ↔ ∀ r, r ∈ t → row_id r ≠ i.
Proof.
  rewrite <- not_true_iff_false, has_id_true. split.
  - intros H r Hr Hi. apply H. by exists r.
  - intros H (r & Hr & Hi). by apply (H r).
Qed.

(** An id found in a SQLite table is a 64-bit integer. *)
Lemma has_id_int64 i t : sqlite_table t = true → has_id i t = true → in_int64 i = true.
Proof.
  intros Ht (r & Hr & <-)%has_id_true. by apply (proj1 (sqlite_table_spec t) Ht).
Qed.

Lemma find_has_id i t :
  List.find (λ r, (row_id r =? i)%Z) t = None ↔ has_id i t = false.
Proof.
  unfold has_id. induction t as [|r t IH]; cbn [List.find existsb]; [done |].
  destruct (row_id r =? i)%Z; cbn [orb]; [done | exact IH].
Qed.

Lemma find_row_id i t r :
  List.find (λ r, (row_id r =? i)%Z) t = Some r → row_id r = i.
Proof.
  intros H. apply List.find_some in H as [_ H]. by apply Z.eqb_eq in H.
Qed.

Lemma has_id_filter i t : has_id i (filter (λ r, row_id r ≠ i) t) = false.
Proof.
  apply has_id_false. intros r Hr. by apply list_elem_of_filter in Hr as [Hr _].
Qed.

Lemma filter_missing i t :
  has_id i t = false → filter (λ r, row_id r ≠ i) t = t.
Proof.
  intros Hi. induction t as [|r t IH]; [done |].
  unfold has_id in Hi. cbn [existsb] in Hi. apply orb_false_iff in Hi as [Hr Ht].
  apply Z.eqb_neq in Hr. rewrite filter_cons_True by done. f_equal. by apply IH.
Qed.

Lemma sqlite_table_filter i t :
  sqlite_table t = true → sqlite_table (filter (λ r, row_id r ≠ i) t) = true.
Proof.
  rewrite !sqlite_table_spec. intros H r Hr. apply list_elem_of_filter in Hr as [_ Hr].
  by apply H.
Qed.

(** *** The rowid of a new row *)

Lemma new_rowid_nil random : new_rowid random [] = Some 1%Z.
Proof. reflexivity. Qed.


Lemma new_rowid_above random t i r :
  below_max t = true → new_rowid random t = Some i → r ∈ t → (row_id r < i)%Z.
Proof.
  unfold below_max, new_rowid. destruct (largest_rowid t) as [m|] eqn:Hm.
  - intros -> [= <-] Hr. pose proof (largest_rowid_ge t m r Hm Hr). lia.
  - destruct t; [| done]. by intros _ _ Hr%elem_of_nil.
Qed.

(** The new rowid is not in use. *)
Lemma new_rowid_fresh random t i : new_rowid random t = Some i → has_id i t = false.
Proof.
  unfold new_rowid. destruct (largest_rowid t) as [m|] eqn:Hm.
  - destruct (m <? MAX_ROWID)%Z.
    + intros [= <-]. apply has_id_false. intros r Hr.
      pose proof (largest_rowid_ge t m r Hm Hr). lia.
    + destruct random as [j|]; [| done].
      destruct (1 <=? j)%Z, (j <=? MAX_ROWID)%Z, (has_id j t) eqn:Hj; try done.
      by intros [= <-].
  - destruct t; [| done]. by intros _.
Qed.

(** In a SQLite table it is a 64-bit integer. *)
Lemma new_rowid_int64 random t i :
  sqlite_table t = true → new_rowid random t = Some i → in_int64 i = true.
Proof.
  intros Ht. unfold new_rowid. destruct (largest_rowid t) as [m|] eqn:Hm.
  - destruct (Z.ltb_spec m MAX_ROWID) as [Hlt | _].
    + intros [= <-]. destruct (largest_rowid_in t m Hm) as (r & Hr & <-).
      pose proof (proj1 (sqlite_table_spec t) Ht r Hr) as Hi%in_int64_spec.
      unfold MAX_ROWID in Hlt. apply in_int64_spec. lia.
    + destruct random as [j|]; [| done].
      destruct (1 <=? j)%Z eqn:H1, (j <=? MAX_ROWID)%Z eqn:H2, (has_id j t); try done.
      intros [= <-]. apply Z.leb_le in H1, H2. unfold MAX_ROWID in H2.
      apply in_int64_spec. lia.
  - by intros [= <-].
Qed.

(** In a table of positive rowids the new rowid is positive. *)
Lemma new_rowid_positive random t i :
  (∀ r, r ∈ t → (0 < row_id r)%Z) → new_rowid random t = Some i → (0 < i)%Z.
Proof.
  intros Hpos. unfold new_rowid. destruct (largest_rowid t) as [m|] eqn:Hm.
  - destruct (m <? MAX_ROWID)%Z.
    + intros [= <-]. destruct (largest_rowid_in t m Hm) as (r & Hr & <-).
      specialize (Hpos r Hr). lia.
    + destruct random as [j|]; [| done].
      destruct (1 <=? j)%Z eqn:H1, (j <=? MAX_ROWID)%Z, (has_id j t); try done.
      intros [= <-]. apply Z.leb_le in H1. lia.
  - by intros [= <-].
Qed.

(** *** Inserting in rowid order *)

Lemma elem_of_insert_row row t r : r ∈ insert_row row t ↔ r = row ∨ r ∈ t.
Proof.
  induction t as [|x t IH]; cbn [insert_row].
  - rewrite list_elem_of_singleton. split; [by left | intros [? | ?%elem_of_nil]; done].
  - destruct (row_id row <? row_id x)%Z.
    + by rewrite elem_of_cons.
    + rewrite !elem_of_cons, IH. tauto.
Qed.

Lemma length_insert_row row t : length (insert_row row t) = S (length t).
Proof.
  induction t as [|x t IH]; [done |]. cbn [insert_row].
  destruct (row_id row <? row_id x)%Z; cbn [length]; [done | by rewrite IH].
Qed.

(** A row whose id is above all others goes to the end. *)
Lemma insert_row_above row (t : list Row) :
  (∀ r, r ∈ t → (row_id r < row_id row)%Z) → insert_row row t = t ++ [row].
Proof.
  induction t as [|x t IH]; intros Hall; [done |]. cbn [insert_row app].
  pose proof (Hall x ltac:(apply elem_of_cons; by left)) as Hx.
  destruct (Z.ltb_spec (row_id row) (row_id x)); [lia |].
  f_equal. apply IH. intros r Hr. apply Hall, elem_of_cons. by right.
Qed.

Lemma has_id_insert_row i row t :
  has_id i (insert_row row t) = (row_id row =? i)%Z || has_id i t.
Proof.
  unfold has_id. induction t as [|x t IH]; cbn [insert_row existsb]; [done |].
  destruct (row_id row <? row_id x)%Z; cbn [existsb]; [done |].
  rewrite IH. by destruct (row_id x =? i)%Z, (row_id row =? i)%Z.
Qed.

Lemma find_insert_row i row t :
  has_id i t = false → row_id row = i →
  List.find (λ r, (row_id r =? i)%Z) (insert_row row t) = Some row.
Proof.
  intros Hf Hi. induction t as [|x t IH]; cbn [insert_row List.find].
  - by rewrite (proj2 (Z.eqb_eq _ _) Hi).
  - unfold has_id in Hf. cbn [existsb] in Hf. apply orb_false_iff in Hf as [Hx Ht].
    destruct (row_id row <? row_id x)%Z; cbn [List.find].
    + by rewrite (proj2 (Z.eqb_eq _ _) Hi).
    + rewrite Hx. by apply IH.
Qed.

(** Deleting the id of the row just inserted gives the table back. *)
Lemma filter_insert_row row t :
  has_id (row_id row) t = false →
  filter (λ r, row_id r ≠ row_id row) (insert_row row t) = t.
Proof.
  intros Hf. induction t as [|x t IH]; cbn [insert_row].
  - by rewrite filter_cons_False by (intros Hne; by apply Hne).
  - unfold has_id in Hf. cbn [existsb] in Hf. apply orb_false_iff in Hf as [Hx Ht].
    apply Z.eqb_neq in Hx.
    destruct (row_id row <? row_id x)%Z.
    + rewrite filter_cons_False by (intros Hne; by apply Hne).
      rewrite filter_cons_True by done. f_equal. by apply filter_missing.
    + rewrite filter_cons_True by done. f_equal. by apply IH.
Qed.

Lemma sqlite_table_insert_row row t :
  sqlite_table t = true → in_int64 (row_id row) = true →
  sqlite_table (insert_row row t) = true.
Proof.
  rewrite !sqlite_table_spec. intros Ht Hrow r [-> | Hr]%elem_of_insert_row; [done |].
  by apply Ht.
Qed.

Lemma NoDup_insert_row row t :
  has_id (row_id row) t = false → NoDup (map row_id t) →
  NoDup (map row_id (insert_row row t)).
Proof.
  intros Hf Hnd. induction t as [|x t IH]; cbn [insert_row map].
  - apply NoDup_singleton.
  - unfold has_id in Hf. cbn [existsb] in Hf. apply orb_false_iff in Hf as [Hx Ht].
    apply Z.eqb_neq in Hx. cbn [map] in Hnd. apply NoDup_cons in Hnd as [Hnx Hnd].
    destruct (row_id row <? row_id x)%Z; cbn [map].
    + apply NoDup_cons. split; [| by apply NoDup_cons].
      intros Hin. apply elem_of_cons in Hin as [Hin | Hin]; [congruence |].
      apply list_elem_of_fmap in Hin as (r & Hr & Hin).
      by apply (proj1 (has_id_false _ _) Ht r Hin).
    + apply NoDup_cons. split; [| by apply IH].
      intros Hin. apply list_elem_of_fmap in Hin as (r & Hr & Hin).
      apply elem_of_insert_row in Hin as [-> | Hin]; [congruence |].
      apply Hnx. rewrite Hr. by apply list_elem_of_fmap_2.
Qed.

End TableFacts.

(** ** Strings that can be encoded *)

Section Encoding.




(** A string that can be encoded is Unicode text, and [json.loads] reads it
    back from [json.dumps] as it was. *)
Lemma utf8_unicode_text s : utf8 s = true → unicode_text s.
Proof.
  intros Hs. split.
  - apply Forall_forall. intros c Hc. apply list_elem_of_In in Hc.
    pose proof (proj1 (forallb_forall _ _) Hs c Hc) as Hsc. unfold is_scalar in Hsc.
    apply orb_true_iff in Hsc as [Hsc | [_ Hsc]%andb_true_iff]; apply N.ltb_lt in Hsc; lia.
  - induction s as [|c [|d s] IH]; [done | done |].
    cbn [utf8 forallb] in Hs. apply andb_true_iff in Hs as [Hc Hs].
    change (no_surrogate_pair (c :: d :: s))
      with (negb (Py_UNICODE_IS_HIGH_SURROGATE c && Py_UNICODE_IS_LOW_SURROGATE d)
            && no_surrogate_pair (d :: s)).
    rewrite (IH Hs), andb_true_r.
    unfold is_scalar in Hc. unfold Py_UNICODE_IS_HIGH_SURROGATE.
    apply orb_true_iff in Hc as [Hc | [Hc _]%andb_true_iff]; apply N.ltb_lt in Hc.
    + destruct (N.leb_spec 0xD800 c); [lia | done].
    + destruct (N.leb_spec c 0xDBFF); [lia |]. by rewrite andb_false_r.
Qed.

Lemma canon_utf8 s : utf8 s = true → canon s = s.
Proof. intros Hs. by apply LoadsDumps.canon_unicode_text, utf8_unicode_text. Qed.

Lemma map_canon_utf8 l : forallb utf8 l = true → map canon l = l.
Proof.
  induction l as [|s l IH]; [done |]. cbn [forallb map].
  intros [Hs Hl]%andb_true_iff. by rewrite (canon_utf8 s Hs), (IH Hl).
Qed.

End Encoding.

(** ** The stored text *)

Section Stored.

Lemma hexdigit_printable d : d < 16 → printable_ascii (Json.hexdigit d) = true.
Proof.
  intros Hd. unfold printable_ascii, Json.hexdigit.
  destruct (N.ltb_spec d 10); apply andb_true_intro; split; apply N.leb_le; lia.
Qed.

Lemma u_escape_printable n : forallb printable_ascii (Json.u_escape n) = true.
Proof.
  unfold Json.u_escape. cbn [forallb].
  rewrite !hexdigit_printable by (apply N.mod_lt; lia). reflexivity.
Qed.

Lemma escape_char_printable c : forallb printable_ascii (Json.escape_char c) = true.
Proof.
  destruct (EscapeFacts.classify c) as [H34 H92 Hlo Hhi | e He Hb Hc | Hc | s1 s2 Hc H1 H2 Hh Hl Hj].
  - cbn [forallb]. unfold printable_ascii.
    rewrite (proj2 (N.leb_le _ _) Hlo), (proj2 (N.leb_le _ _) Hhi). reflexivity.
  - cbn [forallb]. unfold Json.BACKSLASH in Hb.
    repeat match type of Hb with
           | (if ?x =? ?k then _ else _) = _ =>
               destruct (N.eqb_spec x k) as [-> | ?]; [reflexivity |]
           end.
    discriminate.
  - apply u_escape_printable.
  - by rewrite forallb_app, !u_escape_printable.
Qed.

Lemma escape_printable s : forallb printable_ascii (Json.escape s) = true.
Proof.
  induction s as [|c s IH]; [done |].
  rewrite RoundTrip.escape_cons, forallb_app, escape_char_printable. exact IH.
Qed.

Lemma join_encoded_printable l :
  forallb printable_ascii
    (join Json.item_separator (map Json.encode_basestring_ascii l)) = true.
Proof.
  induction l as [|x [|y l] IH]; [done | |].
  - cbn [map join]. unfold Json.encode_basestring_ascii. cbn [forallb].
    rewrite forallb_app, escape_printable. reflexivity.
  - change (join Json.item_separator (map Json.encode_basestring_ascii (x :: y :: l)))
      with (Json.encode_basestring_ascii x ++ Json.item_separator
            ++ join Json.item_separator (map Json.encode_basestring_ascii (y :: l))).
    rewrite !forallb_app, IH. unfold Json.encode_basestring_ascii. cbn [forallb].
    rewrite forallb_app, escape_printable. reflexivity.
Qed.

(** What [json.dumps] writes is printable ASCII. *)
Lemma dumps_printable l : forallb printable_ascii (Json.dumps l) = true.
Proof.
  unfold Json.dumps. cbn [forallb].
  rewrite forallb_app, join_encoded_printable. reflexivity.
Qed.

Lemma printable_utf8 s : forallb printable_ascii s = true → utf8 s = true.
Proof.
  unfold utf8. rewrite !forallb_forall. intros H c Hc. specialize (H c Hc).
  unfold printable_ascii in H. apply andb_true_iff in H as [_ H%N.leb_le].
  unfold is_scalar. apply orb_true_iff. left. apply N.ltb_lt. lia.
Qed.

Lemma dumps_utf8 l : utf8 (Json.dumps l) = true.
Proof. apply printable_utf8, dumps_printable. Qed.

End Stored.
(** ** What each route computes *)

Section Routes.

Ltac run_py :=
  cbv [bind ret raise gets modify add commit refresh deref assign delete
       get_ingredients set_ingredients json_loads serialize_Recipe validate_Recipe
       query_filter_first SessionLocal close];
  cbn -[Json.dumps Json.loads new_rowid canon has_id List.find filter insert_row
        utf8 in_int64 respond].

(** [POST /recipes]: the row is written when the name and the steps can be
    bound and a rowid is found; the answer is the record read back, when it
    can be encoded. *)
Lemma POST_recipes_spec random recipe srv :
  POST_recipes random recipe srv
  = if sqlite_table (recipes_db srv)
       && (utf8 (RecipeCreate.name recipe) && utf8 (RecipeCreate.steps recipe))
    then match new_rowid random (recipes_db srv) with
         | Some i =>
             (respond (Return (created i recipe)),
              {| recipes_db := insert_row (stored_row i recipe) (recipes_db srv);
                 outside := outside srv |})
         | None => (HTTP_500, srv)
         end
    else (HTTP_500, srv).
Proof.
  destruct srv as [t w]. unfold POST_recipes, with_db. cbn [recipes_db outside].
  destruct (sqlite_table t); [| reflexivity]. cbn [andb].
  unfold create_recipe. run_py. unfold insert_rowid. cbn [RecipeDB.id].
  destruct (new_rowid random t) as [i|] eqn:Hi.
  - unfold to_row. cbn [RecipeDB.ingredients RecipeDB.name RecipeDB.steps].
    rewrite dumps_utf8, andb_true_r.
    destruct (utf8 (RecipeCreate.name recipe) && utf8 (RecipeCreate.steps recipe));
      [| reflexivity].
    run_py.
    rewrite find_insert_row by (try done; by apply (new_rowid_fresh random)). run_py.
    rewrite LoadsDumps.loads_dumps_canon. reflexivity.
  - by destruct (utf8 (RecipeCreate.name recipe) && utf8 (RecipeCreate.steps recipe)).
Qed.

(** [DELETE /recipes/{id}] *)
Lemma DELETE_recipes_spec recipe_id srv :
  DELETE_recipes recipe_id srv
  = if sqlite_table (recipes_db srv) && in_int64 recipe_id then
      if has_id recipe_id (recipes_db srv) then
        (HTTP_200 {| message := lit "Recipe deleted successfully" |},
         {| recipes_db := filter (λ r, row_id r ≠ recipe_id) (recipes_db srv);
            outside := outside srv |})
      else (HTTP_error 404 (lit "Recipe not found"), srv)
    else (HTTP_500, srv).
Proof.
  destruct srv as [t w]. unfold DELETE_recipes, with_db. cbn [recipes_db outside].
  destruct (sqlite_table t); [| reflexivity]. cbn [andb].
  unfold delete_recipe. run_py.
  destruct (in_int64 recipe_id); [| reflexivity].
  destruct (List.find _ t) as [r|] eqn:Hfind.
  - pose proof (find_row_id _ _ _ Hfind) as <-.
    assert (Hid : has_id (row_id r) t = true).
    { destruct (has_id (row_id r) t) eqn:Hid; [done |].
      apply find_has_id in Hid. congruence. }
    rewrite Hid. reflexivity.
  - apply find_has_id in Hfind. rewrite Hfind. reflexivity.
Qed.

Lemma DELETE_recipes_found recipe_id srv :
  sqlite_table (recipes_db srv) = true →
  has_id recipe_id (recipes_db srv) = true →
  DELETE_recipes recipe_id srv
  = (HTTP_200 {| message := lit "Recipe deleted successfully" |},
     {| recipes_db := filter (λ r, row_id r ≠ recipe_id) (recipes_db srv);
        outside := outside srv |}).
Proof.
  intros Ht Hid. rewrite DELETE_recipes_spec, Ht, Hid.
  by rewrite (has_id_int64 _ _ Ht Hid).
Qed.

Lemma DELETE_recipes_missing recipe_id srv :
  sqlite_table (recipes_db srv) = true → in_int64 recipe_id = true →
  has_id recipe_id (recipes_db srv) = false →
  DELETE_recipes recipe_id srv = (HTTP_error 404 (lit "Recipe not found"), srv).
Proof. intros Ht Hi Hid. by rewrite DELETE_recipes_spec, Ht, Hi, Hid. Qed.


(** The database after a delete, whatever the answer. *)
Lemma DELETE_recipes_db recipe_id srv :
  recipes_db (DELETE_recipes recipe_id srv).2
  = if sqlite_table (recipes_db srv) && in_int64 recipe_id
    then filter (λ r, row_id r ≠ recipe_id) (recipes_db srv)
    else recipes_db srv.
Proof.
  rewrite DELETE_recipes_spec.
  destruct (sqlite_table (recipes_db srv) && in_int64 recipe_id); [| done].
  destruct (has_id recipe_id (recipes_db srv)) eqn:Hid; [done |].
  cbn. by rewrite filter_missing.
Qed.

Lemma DELETE_recipes_outside recipe_id srv :
  outside (DELETE_recipes recipe_id srv).2 = outside srv.
Proof.
  rewrite DELETE_recipes_spec.
  by destruct (sqlite_table (recipes_db srv) && in_int64 recipe_id),
    (has_id recipe_id (recipes_db srv)).
Qed.

(** When a create answers 200: what held, what it answered, what it wrote. *)
Lemma POST_recipes_200 random recipe srv r :
  (POST_recipes random recipe srv).1 = HTTP_200 r →
  ∃ i, sqlite_table (recipes_db srv) = true
       ∧ new_rowid random (recipes_db srv) = Some i
       ∧ renders (created i recipe) = true
       ∧ r = created i recipe
       ∧ (POST_recipes random recipe srv).2
         = {| recipes_db := insert_row (stored_row i recipe) (recipes_db srv);
              outside := outside srv |}.
Proof.
  rewrite POST_recipes_spec.
  destruct (sqlite_table (recipes_db srv)); [| done]. cbn [andb].
  destruct (utf8 (RecipeCreate.name recipe) && utf8 (RecipeCreate.steps recipe)); [| done].
  destruct (new_rowid random (recipes_db srv)) as [i|]; [| done].
  unfold respond. destruct (renders (created i recipe)) eqn:Hr; [| done].
  cbn [fst snd]. intros [= <-]. by exists i.
Qed.


(** The database after a create, whatever the answer. *)
Lemma POST_recipes_db random recipe srv :
  recipes_db (POST_recipes random recipe srv).2
  = if sqlite_table (recipes_db srv)
       && (utf8 (RecipeCreate.name recipe) && utf8 (RecipeCreate.steps recipe))
    then match new_rowid random (recipes_db srv) with
         | Some i => insert_row (stored_row i recipe) (recipes_db srv)
         | None => recipes_db srv
         end
    else recipes_db srv.
Proof.
  rewrite POST_recipes_spec.
  destruct (sqlite_table (recipes_db srv)
            && (utf8 (RecipeCreate.name recipe) && utf8 (RecipeCreate.steps recipe)));
    [| done].
  by destruct (new_rowid random (recipes_db srv)).
Qed.

Lemma POST_recipes_outside random recipe srv :
  outside (POST_recipes random recipe srv).2 = outside srv.
Proof.
  rewrite POST_recipes_spec.
  by destruct (sqlite_table (recipes_db srv)
               && (utf8 (RecipeCreate.name recipe) && utf8 (RecipeCreate.steps recipe))),
    (new_rowid random (recipes_db srv)).
Qed.

End Routes.
(** ** Listing *)

Section Listing.

Lemma loop_body_step d k pre r post :
  loop_body (length pre)
    {| database := d; objects := pre ++ load r :: post; random_rowid := k |}
  = match Json.loads (row_ingredients r) with
    | Some l => (Return tt, {| database := d; objects := pre ++ listed r l :: post;
                               random_rowid := k |})
    | None => (Raise (Exception "JSONDecodeError" []),
               {| database := d; objects := pre ++ load r :: post; random_rowid := k |})
    end.
Proof.
  unfold loop_body, get_ingredients, set_ingredients, deref, assign, bind, ret, modify.
  cbn [objects database random_rowid]. rewrite list_lookup_middle by done.
  cbn [load obj RecipeDB.ingredients json_loads].
  destruct (Json.loads (row_ingredients r)) as [l|]; [| done].
  unfold ret. cbn [objects database random_rowid]. rewrite list_lookup_middle by done.
  cbn [objects database random_rowid obj state load
       RecipeDB.id RecipeDB.name RecipeDB.steps].
  rewrite insert_app_r_alt by done. rewrite Nat.sub_diag. reflexivity.
Qed.

Lemma for_each_step d k pre r post n :
  for_each (seq (length pre) (S n)) loop_body
    {| database := d; objects := pre ++ load r :: post; random_rowid := k |}
  = match Json.loads (row_ingredients r) with
    | Some l =>
        for_each (seq (S (length pre)) n) loop_body
          {| database := d; objects := pre ++ listed r l :: post; random_rowid := k |}
    | None => (Raise (Exception "JSONDecodeError" []),
               {| database := d; objects := pre ++ load r :: post; random_rowid := k |})
    end.
Proof.
  cbn [seq for_each]. unfold bind at 1. rewrite loop_body_step.
  by destruct (Json.loads (row_ingredients r)).
Qed.

Lemma loop_decode d k rows : ∀ pre,
  let res := for_each (seq (length pre) (length rows)) loop_body
               {| database := d; objects := pre ++ map load rows; random_rowid := k |} in
  database res.2 = d ∧
  match decode_all rows with
  | Some ls =>
      res = (Return tt, {| database := d; objects := pre ++ zip_with listed rows ls;
                           random_rowid := k |})
  | None => res.1 = Raise (Exception "JSONDecodeError" [])
  end.
Proof.
  induction rows as [|r rows IH]; intros pre; [done |].
  cbn [length map decode_all]. rewrite for_each_step.
  destruct (Json.loads (row_ingredients r)) as [l|]; [| done].
  specialize (IH (pre ++ [listed r l])). rewrite length_app, Nat.add_1_r in IH.
  rewrite <- app_assoc in IH. cbn [app] in IH.
  destruct IH as [IHd IHr]. split; [exact IHd |].
  destruct (decode_all rows) as [ls|]; cbn; [| exact IHr].
  rewrite IHr. by rewrite <- app_assoc.
Qed.

Lemma serialize_step d k pre r l post :
  serialize_Recipe (length pre)
    {| database := d; objects := pre ++ listed r l :: post; random_rowid := k |}
  = (Return (as_recipe r l),
     {| database := d; objects := pre ++ listed r l :: post; random_rowid := k |}).
Proof.
  unfold serialize_Recipe, deref, bind. cbn [objects].
  by rewrite list_lookup_middle.
Qed.

Lemma serialize_listed d k : ∀ rows ls pre post,
  length rows = length ls →
  map_each (seq (length pre) (length rows)) serialize_Recipe
    {| database := d; objects := pre ++ zip_with listed rows ls ++ post; random_rowid := k |}
  = (Return (zip_with as_recipe rows ls),
     {| database := d; objects := pre ++ zip_with listed rows ls ++ post;
        random_rowid := k |}).
Proof.
  induction rows as [|r rows IH]; intros [|l ls] pre post Hlen; try done.
  cbn [length seq map_each zip_with app]. unfold bind at 1.
  rewrite serialize_step. unfold bind at 1.
  specialize (IH ls (pre ++ [listed r l]) post ltac:(cbn in Hlen; lia)).
  rewrite length_app, Nat.add_1_r in IH. rewrite <- app_assoc in IH. cbn [app] in IH.
  rewrite IH. reflexivity.
Qed.

Lemma decode_all_length t ls : decode_all t = Some ls → length t = length ls.
Proof.
  revert ls. induction t as [|r t IH]; intros ls H; cbn in H.
  - by inversion H.
  - destruct (Json.loads (row_ingredients r)); [| done].
    destruct (decode_all t) as [ls'|]; [| done].
    inversion H; subst. cbn. f_equal. by apply IH.
Qed.

(** [GET /recipes] lists every row, or fails: on a row it cannot decode, or
    on a record it cannot encode; it writes nothing. *)
Lemma GET_recipes_spec srv :
  GET_recipes srv
  = (if sqlite_table (recipes_db srv) then
       match listing (recipes_db srv) with
       | Some l => if renders l then HTTP_200 l else HTTP_500
       | None => HTTP_500
       end
     else HTTP_500, srv).
Proof.
  destruct srv as [t w]. unfold GET_recipes, with_db. cbn [recipes_db outside].
  destruct (sqlite_table t); [| reflexivity]. unfold get_recipes.
  unfold bind at 1 2 3. unfold query_all at 1, SessionLocal.
  cbn [objects database random_rowid app length].
  fold loop_body. unfold listing.
  pose proof (loop_decode t None t []) as [Hd Hr]. cbn [app length] in Hd, Hr.
  destruct (decode_all t) as [ls|] eqn:HM; cbn [fmap option_fmap option_map].
  - rewrite Hr. unfold ret at 1.
    pose proof (serialize_listed t None t ls [] [] (decode_all_length _ _ HM)) as Hs.
    cbn [app length] in Hs. rewrite app_nil_r in Hs. rewrite Hs. reflexivity.
  - destruct (for_each _ _ _) as [res s]. cbn [fst snd] in Hd, Hr. subst res.
    unfold close. rewrite Hd. reflexivity.
Qed.

Lemma GET_recipes_200 srv l :
  (GET_recipes srv).1 = HTTP_200 l →
  sqlite_table (recipes_db srv) = true ∧ listing (recipes_db srv) = Some l
  ∧ renders l = true.
Proof.
  rewrite GET_recipes_spec. cbn [fst].
  destruct (sqlite_table (recipes_db srv)); [| done].
  destruct (listing (recipes_db srv)) as [l'|]; [| done].
  destruct (renders l') eqn:Hr; [| done]. by intros [= <-].
Qed.

Lemma GET_recipes_ok srv l :
  sqlite_table (recipes_db srv) = true → listing (recipes_db srv) = Some l →
  renders l = true → GET_recipes srv = (HTTP_200 l, srv).
Proof. intros Ht Hl Hr. by rewrite GET_recipes_spec, Ht, Hl, Hr. Qed.

End Listing.
(** ** The suggestion route *)

Section Suggest.
Context `{StrMethods}.

Lemma drawn_style_lookup env :
  styles !! (random_state env mod length styles)%nat = Some (drawn_style env).
Proof.
  unfold drawn_style.
  pose proof (Nat.mod_upper_bound (random_state env) (length styles) ltac:(done)) as Hk.
  destruct (random_state env mod length styles)%nat as [|[|[|[|k]]]]; try done.
  cbn in Hk. lia.
Qed.


Lemma POST_ai_recipe_no_key env data srv :
  truthy (GROQ_API_KEY env) = false →
  POST_ai_recipe env data srv
  = (HTTP_error 400 (lit "GROQ API Key is missing in environment variables."), srv).
Proof.
  intros Hk. destruct srv as [t w]. unfold POST_ai_recipe, suggest_ai_recipe.
  rewrite Hk. reflexivity.
Qed.

Lemma POST_ai_recipe_returns env data srv recipe_text choices :
  truthy (GROQ_API_KEY env) = true →
  completions_create env (suggest_request (user_ingredients data))
    = Returns (recipe_text :: choices) →
  POST_ai_recipe env data srv
  = (respond (Return {| suggestion := recipe_text |}),
     {| recipes_db := recipes_db srv;
        outside := outside srv ++ [Outbound (suggest_request (user_ingredients data))] |}).
Proof.
  intros Hk Hc. destruct srv as [t w]. unfold POST_ai_recipe, suggest_ai_recipe.
  rewrite Hk. cbn [negb]. unfold try_except, bind, chat_completions_create.
  fold (user_ingredients data). rewrite Hc. reflexivity.
Qed.

Lemma POST_ai_recipe_fallback env data srv e :
  truthy (GROQ_API_KEY env) = true →
  provider_fails (completions_create env (suggest_request (user_ingredients data))) e →
  POST_ai_recipe env data srv
  = (respond (Return (fallback env data)),
     {| recipes_db := recipes_db srv;
        outside := outside srv ++ [Outbound (suggest_request (user_ingredients data));
                                   Print_AI_Error e] |}).
Proof.
  intros Hk Hf. destruct srv as [t w]. unfold POST_ai_recipe, suggest_ai_recipe.
  rewrite Hk. cbn [negb]. unfold try_except, bind, chat_completions_create.
  fold (user_ingredients data).
  inversion Hf as [e' He | He]; subst;
    cbn [db events raise print_AI_Error modify];
    unfold random_choice; rewrite drawn_style_lookup;
    cbn [ret close db events database SessionLocal];
    rewrite <- app_assoc; reflexivity.
Qed.

(** The route leaves the database as it was, whatever happens. *)
Lemma POST_ai_recipe_db env data srv :
  recipes_db (POST_ai_recipe env data srv).2 = recipes_db srv.
Proof.
  destruct (truthy (GROQ_API_KEY env)) eqn:Hk.
  - destruct (completions_create env (suggest_request (user_ingredients data)))
      as [[|c cs] | e] eqn:Hc.
    + erewrite POST_ai_recipe_fallback; [done | done |]. rewrite Hc. constructor.
    + by erewrite POST_ai_recipe_returns.
    + erewrite POST_ai_recipe_fallback; [done | done |]. rewrite Hc. constructor.
  - by rewrite POST_ai_recipe_no_key.
Qed.

(** The response does not depend on the server's state. *)
Lemma POST_ai_recipe_response env data srv1 srv2 :
  (POST_ai_recipe env data srv1).1 = (POST_ai_recipe env data srv2).1.
Proof.
  destruct (truthy (GROQ_API_KEY env)) eqn:Hk.
  - destruct (completions_create env (suggest_request (user_ingredients data)))
      as [[|c cs] | e] eqn:Hc.
    + erewrite !POST_ai_recipe_fallback; [done | done | | done |]; rewrite Hc; constructor.
    + by erewrite !POST_ai_recipe_returns.
    + erewrite !POST_ai_recipe_fallback; [done | done | | done |]; rewrite Hc; constructor.
  - by rewrite !POST_ai_recipe_no_key.
Qed.





End Suggest.
(** ** The store across requests *)

Section Store.
Context `{StrMethods}.

Lemma consistent_nil : consistent [].
Proof. split; constructor. Qed.

(** The database after a request: as it was, or with the row of a create
    under a new rowid, or without the rows of the deleted id. *)
Lemma serve_db q srv :
  recipes_db (serve q srv) = recipes_db srv
  ∨ (∃ random recipe i,
       q = Post random recipe
       ∧ sqlite_table (recipes_db srv) = true
       ∧ utf8 (RecipeCreate.name recipe) = true
       ∧ utf8 (RecipeCreate.steps recipe) = true
       ∧ new_rowid random (recipes_db srv) = Some i
       ∧ recipes_db (serve q srv) = insert_row (stored_row i recipe) (recipes_db srv))
  ∨ (∃ recipe_id,
       q = Delete recipe_id
       ∧ recipes_db (serve q srv) = filter (λ r, row_id r ≠ recipe_id) (recipes_db srv)).
Proof.
  destruct q as [| random recipe | recipe_id | env data]; cbn [serve].
  - left. by rewrite GET_recipes_spec.
  - rewrite POST_recipes_db.
    destruct (sqlite_table (recipes_db srv)) eqn:Ht; [| by left]. cbn [andb].
    destruct (utf8 (RecipeCreate.name recipe)) eqn:Hn; [| by left].
    destruct (utf8 (RecipeCreate.steps recipe)) eqn:Hs; [| by left]. cbn [andb].
    destruct (new_rowid random (recipes_db srv)) as [i|] eqn:Hi; [| by left].
    right; left. by exists random, recipe, i.
  - rewrite DELETE_recipes_db.
    destruct (sqlite_table (recipes_db srv) && in_int64 recipe_id); [| by left].
    right; right. by exists recipe_id.
  - left. apply POST_ai_recipe_db.
Qed.

Lemma NoDup_filter_ids i t :
  NoDup (map row_id t) → NoDup (map row_id (filter (λ r, row_id r ≠ i) t)).
Proof.
  intros Hnd. induction t as [|r t IH]; [constructor |].
  cbn [map] in Hnd. apply NoDup_cons in Hnd as [Hr Ht].
  destruct (decide (row_id r ≠ i)).
  - rewrite filter_cons_True by done. cbn [map]. apply NoDup_cons. split; [| by apply IH].
    intros Hin. apply Hr. apply list_elem_of_fmap in Hin as (r' & Hr' & Hin).
    apply list_elem_of_filter in Hin as [_ Hin].
    apply list_elem_of_fmap. eauto.
  - rewrite filter_cons_False by done. by apply IH.
Qed.

(** The primary key stays unique. *)
Lemma NoDup_serve q srv :
  NoDup (map row_id (recipes_db srv)) → NoDup (map row_id (recipes_db (serve q srv))).
Proof.
  intros Hnd.
  destruct (serve_db q srv)
    as [-> | [(random & recipe & i & _ & _ & _ & _ & Hi & ->) | (recipe_id & _ & ->)]].
  - done.
  - apply NoDup_insert_row; [| done]. by apply (new_rowid_fresh random).
  - by apply NoDup_filter_ids.
Qed.


Lemma consistent_serve q srv :
  consistent (recipes_db srv) → consistent (recipes_db (serve q srv)).
Proof.
  intros [Hnd Hdec]. split; [by apply NoDup_serve |].
  destruct (serve_db q srv)
    as [-> | [(random & recipe & i & _ & _ & _ & _ & Hi & ->) | (recipe_id & _ & ->)]].
  - done.
  - apply Forall_forall. intros r [-> | Hr]%elem_of_insert_row.
    + cbn [stored_row row_ingredients]. rewrite LoadsDumps.loads_dumps_canon. eauto.
    + by apply (proj1 (Forall_forall _ _) Hdec).
  - apply Forall_forall. intros r Hr. apply list_elem_of_filter in Hr as [_ Hr].
    by apply (proj1 (Forall_forall _ _) Hdec).
Qed.

Lemma consistent_run qs : ∀ srv,
  consistent (recipes_db srv) → consistent (recipes_db (run qs srv)).
Proof.
  induction qs as [|q qs IH]; intros srv Hc; [done |].
  cbn [run foldl]. apply IH. by apply consistent_serve.
Qed.

(** Every state the service reaches from an empty database is consistent. *)
Lemma consistent_reachable qs w :
  consistent (recipes_db (run qs {| recipes_db := []; outside := w |})).
Proof. apply consistent_run, consistent_nil. Qed.

(** Every rowid stays a 64-bit integer. *)
Lemma sqlite_table_serve q srv :
  sqlite_table (recipes_db srv) = true → sqlite_table (recipes_db (serve q srv)) = true.
Proof.
  intros Ht.
  destruct (serve_db q srv)
    as [-> | [(random & recipe & i & _ & _ & _ & _ & Hi & ->) | (recipe_id & _ & ->)]].
  - done.
  - apply sqlite_table_insert_row; [done |]. by apply (new_rowid_int64 random (recipes_db srv)).
  - by apply sqlite_table_filter.
Qed.

Lemma sqlite_table_run qs : ∀ srv,
  sqlite_table (recipes_db srv) = true → sqlite_table (recipes_db (run qs srv)) = true.
Proof.
  induction qs as [|q qs IH]; intros srv Hc; [done |].
  cbn [run foldl]. apply IH. by apply sqlite_table_serve.
Qed.



(** *** The listing of a table *)

Lemma listing_is_Some t :
  Forall (λ r, is_Some (Json.loads (row_ingredients r))) t → is_Some (listing t).
Proof.
  unfold listing. induction 1 as [|r t [l Hl] _ IH]; [by eexists |].
  cbn [decode_all]. rewrite Hl. destruct (decode_all t) as [ls|]; [by eexists |].
  by destruct IH.
Qed.



Lemma listing_length t l : listing t = Some l → length l = length t.
Proof.
  unfold listing. destruct (decode_all t) as [ls|] eqn:Hd; [| done].
  cbn. intros [= <-]. rewrite length_zip_with.
  apply decode_all_length in Hd. lia.
Qed.



Lemma decode_all_bad_row t row :
  row ∈ t → Json.loads (row_ingredients row) = None → decode_all t = None.
Proof.
  induction t as [|r t IH]; intros Hin Hbad; [by apply elem_of_nil in Hin |].
  cbn [decode_all]. apply elem_of_cons in Hin as [<- | Hin].
  - by rewrite Hbad.
  - rewrite (IH Hin Hbad). by destruct (Json.loads (row_ingredients r)).
Qed.

Lemma decode_all_app t1 t2 :
  decode_all (t1 ++ t2)
  = match decode_all t1, decode_all t2 with
    | Some l1, Some l2 => Some (l1 ++ l2)
    | _, _ => None
    end.
Proof.
  induction t1 as [|r t1 IH]; cbn [app decode_all].
  - by destruct (decode_all t2).
  - rewrite IH. destruct (Json.loads (row_ingredients r)); [| done].
    by destruct (decode_all t1), (decode_all t2).
Qed.

Lemma listing_app_row t l row ings :
  listing t = Some l → Json.loads (row_ingredients row) = Some ings →
  listing (t ++ [row]) = Some (l ++ [as_recipe row ings]).
Proof.
  unfold listing. intros Hl Hrow. rewrite decode_all_app. cbn [decode_all]. rewrite Hrow.
  destruct (decode_all t) as [ls|] eqn:Ht; [| done]. cbn in Hl |- *.
  inversion Hl; subst l. f_equal.
  rewrite zip_with_app by (by apply decode_all_length). reflexivity.
Qed.

Lemma listing_filter t l i :
  listing t = Some l →
  listing (filter (λ r, row_id r ≠ i) t) = Some (filter (λ r, Recipe.id r ≠ i) l).
Proof.
  unfold listing. revert l. induction t as [|r t IH]; intros l Hl.
  - cbn in Hl. by inversion Hl.
  - cbn [decode_all] in Hl.
    destruct (Json.loads (row_ingredients r)) as [ings|] eqn:Hr; [| done].
    destruct (decode_all t) as [ls|] eqn:Ht; [| done].
    cbn in Hl. inversion Hl; subst l; clear Hl.
    specialize (IH _ eq_refl).
    destruct (decide (row_id r ≠ i)) as [Hne | Heq].
    + rewrite filter_cons_True by done.
      rewrite (filter_cons_True (λ r, Recipe.id r ≠ i)) by done.
      cbn [decode_all]. rewrite Hr.
      destruct (decode_all (filter _ t)) as [ls'|]; [| done].
      cbn in IH |- *. inversion IH as [IH']. by rewrite IH'.
    + rewrite filter_cons_False by done.
      by rewrite (filter_cons_False (λ r, Recipe.id r ≠ i)).
Qed.

(** *** Records that can be encoded *)

Lemma renders_list_spec (l : list Recipe.t) :
  renders l = true ↔ ∀ r, r ∈ l → renders r = true.
Proof.
  unfold renders at 1, list_body. rewrite forallb_forall. split; intros Hl r Hr; apply Hl.
  - by apply list_elem_of_In.
  - by apply list_elem_of_In.
Qed.

Lemma renders_filter (P : Recipe.t → Prop) `{∀ r, Decision (P r)} (l : list Recipe.t) :
  renders l = true → renders (filter P l) = true.
Proof.
  rewrite !renders_list_spec. intros Hl r Hr. apply list_elem_of_filter in Hr as [_ Hr].
  by apply Hl.
Qed.

Lemma renders_snoc (l : list Recipe.t) r :
  renders l = true → renders r = true → renders (l ++ [r]) = true.
Proof.
  rewrite !renders_list_spec. intros Hl Hr x [Hx | Hx%list_elem_of_singleton]%elem_of_app.
  - by apply Hl.
  - by subst x.
Qed.

(** A table of rows that can each be listed is listed. *)
Lemma listing_listable t :
  Forall listable t → ∃ l, listing t = Some l ∧ renders l = true.
Proof.
  unfold listing. induction 1 as [|r t (ings & Hings & Hr) _ (l & Hl & Hrl)].
  - by exists [].
  - cbn [decode_all]. rewrite Hings.
    destruct (decode_all t) as [ls|]; [| done]. cbn in Hl |- *.
    injection Hl as <-. eexists. split; [reflexivity |].
    unfold renders, list_body. cbn [forallb]. apply andb_true_iff. split; [exact Hr |].
    exact Hrl.
Qed.


(** Requests that bring no surrogate into an ingredient keep every row
    listable. *)
Lemma listable_serve q srv :
  scalar_request q = true →
  Forall listable (recipes_db srv) → Forall listable (recipes_db (serve q srv)).
Proof.
  intros Hq Hall.
  destruct (serve_db q srv)
    as [-> | [(random & recipe & i & -> & _ & Hn & Hs & Hi & ->) | (recipe_id & _ & ->)]].
  - done.
  - apply Forall_forall. intros r [-> | Hr]%elem_of_insert_row.
    + exists (RecipeCreate.ingredients recipe). cbn [stored_row row_ingredients row_id
        row_name row_steps]. cbn [scalar_request] in Hq. split.
      * rewrite LoadsDumps.loads_dumps_canon. by rewrite map_canon_utf8.
      * unfold renders, Recipe_body. cbn [Recipe.name Recipe.ingredients Recipe.steps].
        by rewrite Hn, Hs, Hq.
    + by apply (proj1 (Forall_forall _ _) Hall).
  - apply Forall_forall. intros r Hr. apply list_elem_of_filter in Hr as [_ Hr].
    by apply (proj1 (Forall_forall _ _) Hall).
Qed.

Lemma listable_run qs : ∀ srv,
  forallb scalar_request qs = true →
  Forall listable (recipes_db srv) → Forall listable (recipes_db (run qs srv)).
Proof.
  induction qs as [|q qs IH]; intros srv Hqs Hall; [done |].
  cbn [forallb] in Hqs. apply andb_true_iff in Hqs as [Hq Hqs].
  cbn [run foldl]. apply IH; [done |]. by apply listable_serve.
Qed.

End Store.
(** ** Lines and occurrences *)

Section Lines.












Lemma occurs_in_fallback_text x style main_ing user_ingredients :
  occurs_in x user_ingredients →
  occurs_in x (fallback_text style main_ing user_ingredients).
Proof.
  intros (p & q & ->).
  exists (((lit "Recipe Name: " ++ style ++ lit " " ++ main_ing
            ++ lit " (Local Chef Mode)" ++ LF ++ LF)
           ++ (lit "Note: [AI Service Busy - Using Local Intelligence]" ++ LF ++ LF)
           ++ (steps_header ++ LF) ++ lit "1. Prepare your ") ++ p),
         (q ++ (lit "." ++ LF)
            ++ (lit "2. Saut" ++ [233] ++ lit " in a hot pan with oil until tender." ++ LF)
            ++ (lit "3. Season to taste and serve beautifully." ++ LF)).
  unfold fallback_text. rewrite <- !app_assoc. reflexivity.
Qed.



End Lines.

(** ** Examples *)

(** The run of the specification's example: create, list, delete, delete. *)
Example soup_created :
  POST_recipes None (RecipeCreate.mk (lit "Soup") [lit "carrot"; lit "onion"] (lit "Boil."))
    srv0
  = (HTTP_200 (Recipe.mk 1 (lit "Soup") [lit "carrot"; lit "onion"] (lit "Boil.")),
     {| recipes_db := [mkRow 1 (lit "Soup")
                         ([91; 34] ++ lit "carrot" ++ [34] ++ lit ", " ++ [34]
                          ++ lit "onion" ++ [34; 93])
                         (lit "Boil.")];
        outside := [] |}).
Proof. reflexivity. Qed.

Example soup_listed_then_deleted :
  let srv1 := (POST_recipes None (RecipeCreate.mk (lit "Soup") [lit "carrot"; lit "onion"]
                                    (lit "Boil.")) srv0).2 in
  (GET_recipes srv1).1
    = HTTP_200 [Recipe.mk 1 (lit "Soup") [lit "carrot"; lit "onion"] (lit "Boil.")]
  ∧ DELETE_recipes 1 srv1
    = (HTTP_200 {| message := lit "Recipe deleted successfully" |}, srv0)
  ∧ DELETE_recipes 1 srv0 = (HTTP_error 404 (lit "Recipe not found"), srv0).
Proof. repeat split; reflexivity. Qed.

(** Escapes of every kind come back: a quote, a backslash, a line feed, a
    control character, DEL, a Latin letter, an Arabic letter, an emoji. *)
Example loads_dumps_escapes :
  Json.loads (Json.dumps [[34; 92; 10; 1; 127; 233; 0x637; 0x1F600]; []])
  = Some [[34; 92; 10; 1; 127; 233; 0x637; 0x1F600]; []].
Proof. reflexivity. Qed.

(** Outside Unicode text the list is not read back as written: a high and
    a low surrogate written as two code points come back as one. *)
Example surrogate_pair_is_joined :
  Json.loads (Json.dumps [surrogate_pair]) = Some [[0x1F600]].
Proof. reflexivity. Qed.

(** A name with a surrogate cannot be bound: the commit fails, nothing is
    stored and the answer is a 500. *)
Example surrogate_name_is_refused :
  POST_recipes None (RecipeCreate.mk lone_surrogate [lit "carrot"] (lit "Boil.")) srv0
  = (HTTP_500, srv0).
Proof. reflexivity. Qed.

(** An ingredient with a lone surrogate is stored, escaped; but the record
    read back cannot be encoded: the create answers 500, and so does every
    listing as long as the row is there. *)
Example surrogate_ingredient_is_stored :
  let srv1 := (POST_recipes None (RecipeCreate.mk (lit "Soup") [lone_surrogate] (lit "Boil."))
                 srv0).2 in
  POST_recipes None (RecipeCreate.mk (lit "Soup") [lone_surrogate] (lit "Boil.")) srv0
  = (HTTP_500,
     {| recipes_db := [mkRow 1 (lit "Soup") ([91; 34; 92] ++ lit "ud83d" ++ [34; 93])
                         (lit "Boil.")];
        outside := [] |})
  ∧ GET_recipes srv1 = (HTTP_500, srv1).
Proof. split; reflexivity. Qed.

(** An id beyond 64 bits cannot be bound to the query: the answer is a 500,
    not a 404. *)
Example delete_beyond_64_bits :
  DELETE_recipes 9223372036854775808 srv0 = (HTTP_500, srv0)
  ∧ DELETE_recipes (-9223372036854775809) srv0 = (HTTP_500, srv0)
  ∧ DELETE_recipes 9223372036854775807 srv0
    = (HTTP_error 404 (lit "Recipe not found"), srv0).
Proof. repeat split; reflexivity. Qed.

(** Once the largest rowid is taken, the new row gets the rowid the
    engine's random search ends with, and is listed at its place in rowid
    order: here first.  When the search finds nothing the create fails. *)
Example random_rowid_is_listed_first :
  POST_recipes (Some 7%Z) (RecipeCreate.mk (lit "Soup") [] (lit "Boil.")) srv_full
  = (HTTP_200 (Recipe.mk 7 (lit "Soup") [] (lit "Boil.")),
     {| recipes_db := [mkRow 7 (lit "Soup") (lit "[]") (lit "Boil.");
                       mkRow 9223372036854775807 (lit "Last") (lit "[]") (lit "Wait.")];
        outside := [] |})
  ∧ POST_recipes None (RecipeCreate.mk (lit "Soup") [] (lit "Boil.")) srv_full
    = (HTTP_500, srv_full).
Proof. split; reflexivity. Qed.

(** * The claims *)




(** C2.  A recipe that was created (the create answered 200 with a record)
    is deleted by the id of that record exactly once: the first delete
    answers 200 with the fixed message, the second answers 404 with detail
    [Recipe not found] and leaves the state as it is. *)
Theorem delete_exactly_once (srv : Server) (random : option Z) (recipe : RecipeCreate.t)
    (r : Recipe.t) :
  (POST_recipes random recipe srv).1 = HTTP_200 r →
  let srv1 := (POST_recipes random recipe srv).2 in
  let srv2 := (DELETE_recipes (Recipe.id r) srv1).2 in
  (DELETE_recipes (Recipe.id r) srv1).1
    = HTTP_200 {| message := lit "Recipe deleted successfully" |}
  ∧ DELETE_recipes (Recipe.id r) srv2
    = (HTTP_error 404 (lit "Recipe not found"), srv2).
Proof.
  intros Hpost. destruct (POST_recipes_200 _ _ _ _ Hpost) as (i & Ht & Hi & _ & -> & ->).
  cbn zeta. change (Recipe.id (created i recipe)) with i.
  pose proof (new_rowid_int64 _ _ _ Ht Hi) as Hint.
  set (srv1 := {| recipes_db := _; outside := _ |}).
  assert (Ht1 : sqlite_table (recipes_db srv1) = true)
    by (by apply sqlite_table_insert_row).
  assert (Hin : has_id i (recipes_db srv1) = true).
  { cbn [srv1 recipes_db]. rewrite has_id_insert_row. cbn [stored_row row_id].
    by rewrite Z.eqb_refl. }
  rewrite (DELETE_recipes_found i srv1 Ht1 Hin). cbn [fst snd]. split; [reflexivity |].
  apply DELETE_recipes_missing; cbn [recipes_db].
  - by apply sqlite_table_filter.
  - exact Hint.
  - apply has_id_filter.
Qed.

Lemma delete_exactly_once_witness :
  let srv1 := (POST_recipes None soup srv0).2 in
  let srv2 := (DELETE_recipes 1 srv1).2 in
  (DELETE_recipes 1 srv1).1 = HTTP_200 {| message := lit "Recipe deleted successfully" |}
  ∧ DELETE_recipes 1 srv2 = (HTTP_error 404 (lit "Recipe not found"), srv2).
Proof.
  apply (delete_exactly_once srv0 None soup
           (Recipe.mk 1 (lit "Soup") [lit "carrot"; lit "onion"; lit "carrot"] (lit "Boil."))).
  reflexivity.
Defined.



(** C9.  Deleting by id touches only the rows with that id.  When the id is
    stored the answer is 200 and every other row stays, unchanged and in its
    place.  When it is not stored the whole state is as before; the answer
    is then 404, or 500 for an id that is no 64-bit integer.  (On a file that
    holds no SQLite table the answer is 500 and nothing changes.) *)
Theorem delete_frame (srv : Server) (recipe_id : Z) :
  if sqlite_table (recipes_db srv) then
    if has_id recipe_id (recipes_db srv) then
      DELETE_recipes recipe_id srv
        = (HTTP_200 {| message := lit "Recipe deleted successfully" |},
           {| recipes_db := filter (λ r, row_id r ≠ recipe_id) (recipes_db srv);
              outside := outside srv |})
      ∧ ∀ r, row_id r ≠ recipe_id →
          (r ∈ recipes_db (DELETE_recipes recipe_id srv).2 ↔ r ∈ recipes_db srv)
    else if in_int64 recipe_id then
      DELETE_recipes recipe_id srv = (HTTP_error 404 (lit "Recipe not found"), srv)
    else
      DELETE_recipes recipe_id srv = (HTTP_500, srv)
  else DELETE_recipes recipe_id srv = (HTTP_500, srv).
Proof.
  destruct (sqlite_table (recipes_db srv)) eqn:Ht.
  - destruct (has_id recipe_id (recipes_db srv)) eqn:Hid.
    + rewrite DELETE_recipes_found by done. split; [reflexivity |].
      intros r Hr. cbn [snd recipes_db]. rewrite list_elem_of_filter. tauto.
    + destruct (in_int64 recipe_id) eqn:Hi.
      * by apply DELETE_recipes_missing.
      * by rewrite DELETE_recipes_spec, Ht, Hi.
  - by rewrite DELETE_recipes_spec, Ht.
Qed.

(** C3.  Without a credential ([GROQ_API_KEY] unset or empty) the suggestion
    route answers 400 with the fixed detail, whatever the ingredients are;
    the server state is as before, so no completion call went out and no
    fallback was built. *)
Theorem missing_credential `{StrMethods} (completions : ChatRequest → outcome)
    (rnd : nat) (data : IngredientList.t) (srv : Server) :
  POST_ai_recipe (mkEnv None completions rnd) data srv
    = (HTTP_error 400 (lit "GROQ API Key is missing in environment variables."), srv)
  ∧ POST_ai_recipe (mkEnv (Some []) completions rnd) data srv
    = (HTTP_error 400 (lit "GROQ API Key is missing in environment variables."), srv).
Proof. split; by apply POST_ai_recipe_no_key. Qed.






(** C10.  The suggestion route neither reads nor writes the recipe store:
    its response is the same from any two server states, and the database
    after the call is the database before it. *)
Theorem suggestion_ignores_store `{StrMethods} (env : Env) (data : IngredientList.t)
    (srv1 srv2 : Server) :
  (POST_ai_recipe env data srv1).1 = (POST_ai_recipe env data srv2).1
  ∧ recipes_db (POST_ai_recipe env data srv1).2 = recipes_db srv1.
Proof. split; [apply POST_ai_recipe_response | apply POST_ai_recipe_db]. Qed.






(** * Further properties *)

(** ** Listing *)

(** X1.  From an empty database, after any sequence of requests that bring
    no surrogate code point into an ingredient, the listing answers 200 with
    one record per row: no row the service wrote fails to decode or to be
    encoded. *)
Theorem listing_never_fails `{StrMethods} (qs : list request) (w : list event) :
  forallb scalar_request qs = true →
  ∃ l, (GET_recipes (run qs {| recipes_db := []; outside := w |})).1 = HTTP_200 l
       ∧ length l = length (recipes_db (run qs {| recipes_db := []; outside := w |})).
Proof.
  intros Hqs. set (srv := run qs _).
  assert (Hall : Forall listable (recipes_db srv))
    by (apply listable_run; [done | constructor]).
  assert (Ht : sqlite_table (recipes_db srv) = true) by (by apply sqlite_table_run).
  destruct (listing_listable _ Hall) as (l & Hl & Hr).
  exists l. rewrite (GET_recipes_ok srv l Ht Hl Hr). split; [done |].
  by apply listing_length.
Qed.

Lemma listing_never_fails_witness :
  ∃ l, (GET_recipes (run (H := AsciiStr)
                       [Post None soup; Get; Suggest (env_down 0) rice_and_egg;
                        Post None soup; Delete 1]
                       {| recipes_db := []; outside := [] |})).1 = HTTP_200 l
       ∧ length l
         = length (recipes_db (run (H := AsciiStr)
                                 [Post None soup; Get; Suggest (env_down 0) rice_and_egg;
                                  Post None soup; Delete 1]
                                 {| recipes_db := []; outside := [] |})).
Proof.
  apply (listing_never_fails (H := AsciiStr)
           [Post None soup; Get; Suggest (env_down 0) rice_and_egg; Post None soup; Delete 1]
           []).
  reflexivity.
Defined.

(** X2.  Listing writes nothing: whatever the database holds, and although the
    handler assigns to the [ingredients] attribute of every loaded object, the
    server state after [GET /recipes] is the state before it. *)
Theorem listing_writes_nothing (srv : Server) : (GET_recipes srv).2 = srv.
Proof. by rewrite GET_recipes_spec. Qed.

(** X3.  One row whose [ingredients] column is not a JSON array of strings
    makes the whole listing fail with a 500; the database is left alone. *)
Theorem listing_fails_on_foreign_row (srv : Server) (row : Row) :
  row ∈ recipes_db srv →
  Json.loads (row_ingredients row) = None →
  GET_recipes srv = (HTTP_500, srv).
Proof.
  intros Hin Hbad. rewrite GET_recipes_spec. unfold listing.
  rewrite (decode_all_bad_row _ _ Hin Hbad). by destruct (sqlite_table (recipes_db srv)).
Qed.

Lemma listing_fails_on_foreign_row_witness : GET_recipes srv_foreign = (HTTP_500, srv_foreign).
Proof.
  apply (listing_fails_on_foreign_row srv_foreign
           (mkRow 1 (lit "Soup") (lit "carrot, onion") (lit "Boil."))).
  - apply elem_of_cons. by left.
  - reflexivity.
Defined.

(** X4.  The listing mirrors the table: one record per row, in table order,
    with the id, the name and the steps of the row. *)
Theorem listing_mirrors_table (srv : Server) (l : list Recipe.t) :
  (GET_recipes srv).1 = HTTP_200 l →
  map Recipe.id l = map row_id (recipes_db srv)
  ∧ map Recipe.name l = map row_name (recipes_db srv)
  ∧ map Recipe.steps l = map row_steps (recipes_db srv).
Proof.
  intros (_ & Hl & _)%GET_recipes_200. unfold listing in Hl.
  destruct (decode_all (recipes_db srv)) as [ls|] eqn:Hd; [| done].
  cbn in Hl. inversion Hl; subst l; clear Hl.
  apply decode_all_length in Hd. revert ls Hd.
  induction (recipes_db srv) as [|r t IH]; intros [|x ls] Hlen; try done.
  cbn [zip_with map as_recipe Recipe.id Recipe.name Recipe.steps].
  destruct (IH ls ltac:(cbn in Hlen; lia)) as (H1 & H2 & H3).
  by rewrite H1, H2, H3.
Qed.

Lemma listing_mirrors_table_witness :
  (GET_recipes srv_soup).1
    = HTTP_200 [Recipe.mk 1 (lit "Soup") [lit "carrot"; lit "onion"; lit "carrot"]
                  (lit "Boil.")]
  ∧ map Recipe.id [Recipe.mk 1 (lit "Soup") [lit "carrot"; lit "onion"; lit "carrot"]
                     (lit "Boil.")]
    = map row_id (recipes_db srv_soup).
Proof.
  split; [reflexivity |].
  apply (listing_mirrors_table srv_soup). reflexivity.
Defined.

(** ** Create and delete against the listing *)

Lemma created_as_recipe i recipe :
  created i recipe
  = as_recipe (stored_row i recipe) (map canon (RecipeCreate.ingredients recipe)).
Proof. reflexivity. Qed.

(** X5.  When the create answers 200 and the largest stored id is below
    [MAX_ROWID], the listing after it is the listing before it, followed by
    the created record. *)
Theorem listing_after_create (srv : Server) (random : option Z) (recipe : RecipeCreate.t)
    (l : list Recipe.t) (r : Recipe.t) :
  (GET_recipes srv).1 = HTTP_200 l →
  (POST_recipes random recipe srv).1 = HTTP_200 r →
  below_max (recipes_db srv) = true →
  (GET_recipes (POST_recipes random recipe srv).2).1 = HTTP_200 (l ++ [r]).
Proof.
  intros (Ht & Hl & Hrl)%GET_recipes_200 Hpost Hb.
  destruct (POST_recipes_200 _ _ _ _ Hpost) as (i & _ & Hi & Hr & -> & ->).
  rewrite (GET_recipes_ok _ (l ++ [created i recipe])); [reflexivity | | |];
    cbn [recipes_db].
  - apply sqlite_table_insert_row; [done |].
    by apply (new_rowid_int64 random (recipes_db srv)).
  - rewrite insert_row_above
      by (intros x Hx; by apply (new_rowid_above random (recipes_db srv) i)).
    rewrite created_as_recipe.
    apply listing_app_row; [done |].
    cbn [stored_row row_ingredients]. apply LoadsDumps.loads_dumps_canon.
  - by apply renders_snoc.
Qed.

Lemma listing_after_create_witness :
  (GET_recipes (POST_recipes None soup srv0).2).1
  = HTTP_200 ([] ++ [Recipe.mk 1 (lit "Soup") [lit "carrot"; lit "onion"; lit "carrot"]
                       (lit "Boil.")]).
Proof.
  apply (listing_after_create srv0 None soup []
           (Recipe.mk 1 (lit "Soup") [lit "carrot"; lit "onion"; lit "carrot"] (lit "Boil."))).
  - reflexivity.
  - reflexivity.
  - reflexivity.
Defined.

(** X6.  After a delete the listing is the listing before it without the
    records of that id, the others in their order; this holds whether the
    delete answered 200 or 404. *)
Theorem listing_after_delete (srv : Server) (recipe_id : Z) (l : list Recipe.t) :
  (GET_recipes srv).1 = HTTP_200 l →
  (GET_recipes (DELETE_recipes recipe_id srv).2).1
  = HTTP_200 (filter (λ r, Recipe.id r ≠ recipe_id) l).
Proof.
  intros (Ht & Hl & Hrl)%GET_recipes_200.
  assert (Hdb : recipes_db (DELETE_recipes recipe_id srv).2
                = filter (λ r, row_id r ≠ recipe_id) (recipes_db srv)).
  { rewrite DELETE_recipes_db, Ht. cbn [andb].
    destruct (in_int64 recipe_id) eqn:Hi; [done |].
    symmetry. apply filter_missing.
    destruct (has_id recipe_id (recipes_db srv)) eqn:Hid; [| done].
    rewrite (has_id_int64 _ _ Ht Hid) in Hi. discriminate. }
  rewrite (GET_recipes_ok _ (filter (λ r, Recipe.id r ≠ recipe_id) l)); [reflexivity | | |].
  - rewrite Hdb. by apply sqlite_table_filter.
  - rewrite Hdb. by apply listing_filter.
  - by apply renders_filter.
Qed.

Lemma listing_after_delete_witness :
  (GET_recipes (DELETE_recipes 1 srv_soup).2).1
  = HTTP_200 (filter (λ r, Recipe.id r ≠ 1%Z)
                [Recipe.mk 1 (lit "Soup") [lit "carrot"; lit "onion"; lit "carrot"]
                   (lit "Boil.")]).
Proof. apply (listing_after_delete srv_soup 1). reflexivity. Defined.

(** X7.  The id of a created record is new: no stored row has it, and it is
    a 64-bit integer; it is above the id of every stored row as long as the
    largest of them is below [MAX_ROWID], and it is 1 in an empty
    database. *)
Theorem created_id_is_new (srv : Server) (random : option Z) (recipe : RecipeCreate.t)
    (r : Recipe.t) :
  (POST_recipes random recipe srv).1 = HTTP_200 r →
  has_id (Recipe.id r) (recipes_db srv) = false
  ∧ in_int64 (Recipe.id r) = true
  ∧ (below_max (recipes_db srv) = true →
     ∀ row, row ∈ recipes_db srv → (row_id row < Recipe.id r)%Z)
  ∧ (recipes_db srv = [] → Recipe.id r = 1%Z).
Proof.
  intros Hpost. destruct (POST_recipes_200 _ _ _ _ Hpost) as (i & Ht & Hi & _ & -> & _).
  change (Recipe.id (created i recipe)) with i. repeat split.
  - by apply (new_rowid_fresh random).
  - by apply (new_rowid_int64 random (recipes_db srv)).
  - intros Hb row Hrow. by apply (new_rowid_above random (recipes_db srv)).
  - intros Hnil. rewrite Hnil in Hi. by injection Hi as <-.
Qed.

Lemma created_id_is_new_witness :
  has_id 1 (recipes_db srv0) = false
  ∧ in_int64 1 = true
  ∧ (below_max (recipes_db srv0) = true →
     ∀ row, row ∈ recipes_db srv0 → (row_id row < 1)%Z)
  ∧ (recipes_db srv0 = [] → 1%Z = 1%Z).
Proof.
  apply (created_id_is_new srv0 None soup
           (Recipe.mk 1 (lit "Soup") [lit "carrot"; lit "onion"; lit "carrot"] (lit "Boil."))).
  reflexivity.
Defined.

(** X8.  When a create answers 200, the delete of the id of its record
    answers 200 and leaves the server as it was before the create. *)
Theorem create_then_delete_restores (srv : Server) (random : option Z)
    (recipe : RecipeCreate.t) (r : Recipe.t) :
  (POST_recipes random recipe srv).1 = HTTP_200 r →
  DELETE_recipes (Recipe.id r) (POST_recipes random recipe srv).2
  = (HTTP_200 {| message := lit "Recipe deleted successfully" |}, srv).
Proof.
  intros Hpost. destruct (POST_recipes_200 _ _ _ _ Hpost) as (i & Ht & Hi & _ & -> & ->).
  change (Recipe.id (created i recipe)) with i.
  pose proof (new_rowid_fresh _ _ _ Hi) as Hfresh.
  rewrite DELETE_recipes_found; cbn [recipes_db outside].
  - change i with (row_id (stored_row i recipe)) at 1.
    rewrite filter_insert_row by done. by destruct srv.
  - apply sqlite_table_insert_row; [done |].
    by apply (new_rowid_int64 random (recipes_db srv)).
  - rewrite has_id_insert_row. cbn [stored_row row_id]. by rewrite Z.eqb_refl.
Qed.

Lemma create_then_delete_restores_witness :
  DELETE_recipes 1 (POST_recipes None soup srv0).2
  = (HTTP_200 {| message := lit "Recipe deleted successfully" |}, srv0).
Proof.
  apply (create_then_delete_restores srv0 None soup
           (Recipe.mk 1 (lit "Soup") [lit "carrot"; lit "onion"; lit "carrot"] (lit "Boil."))).
  reflexivity.
Defined.

(** X9.  A create that answers 200 has added exactly one row, at its place
    in rowid order, which is the end of the table as long as the largest
    stored id is below [MAX_ROWID]: the rows stored before stay as they are;
    the new row holds the name and the steps as given, and its
    [ingredients] column decodes to the list the response carries. *)
Theorem create_appends_one_row (srv : Server) (random : option Z)
    (recipe : RecipeCreate.t) (r : Recipe.t) :
  (POST_recipes random recipe srv).1 = HTTP_200 r →
  ∃ row,
    (POST_recipes random recipe srv).2
      = {| recipes_db := insert_row row (recipes_db srv); outside := outside srv |}
    ∧ (below_max (recipes_db srv) = true →
       insert_row row (recipes_db srv) = recipes_db srv ++ [row])
    ∧ row_id row = Recipe.id r
    ∧ row_name row = RecipeCreate.name recipe ∧ Recipe.name r = RecipeCreate.name recipe
    ∧ row_steps row = RecipeCreate.steps recipe ∧ Recipe.steps r = RecipeCreate.steps recipe
    ∧ Json.loads (row_ingredients row) = Some (Recipe.ingredients r).
Proof.
  intros Hpost. destruct (POST_recipes_200 _ _ _ _ Hpost) as (i & Ht & Hi & _ & -> & ->).
  exists (stored_row i recipe). split; [reflexivity |]. split.
  - intros Hb. apply insert_row_above. cbn [stored_row row_id].
    intros x Hx. by apply (new_rowid_above random (recipes_db srv)).
  - cbn [stored_row created row_id row_name row_steps row_ingredients
         Recipe.id Recipe.name Recipe.steps Recipe.ingredients].
    repeat split. apply LoadsDumps.loads_dumps_canon.
Qed.

Lemma create_appends_one_row_witness :
  ∃ row,
    (POST_recipes None soup srv0).2
      = {| recipes_db := insert_row row (recipes_db srv0); outside := outside srv0 |}
    ∧ (below_max (recipes_db srv0) = true →
       insert_row row (recipes_db srv0) = recipes_db srv0 ++ [row])
    ∧ row_id row = 1%Z
    ∧ row_name row = lit "Soup" ∧ lit "Soup" = lit "Soup"
    ∧ row_steps row = lit "Boil." ∧ lit "Boil." = lit "Boil."
    ∧ Json.loads (row_ingredients row) = Some [lit "carrot"; lit "onion"; lit "carrot"].
Proof.
  apply (create_appends_one_row srv0 None soup
           (Recipe.mk 1 (lit "Soup") [lit "carrot"; lit "onion"; lit "carrot"] (lit "Boil."))).
  reflexivity.
Defined.

(** X10.  Once a delete of an id was answered, with 200 or with 404, the id
    is gone: a further delete of it answers 404 and changes nothing. *)
Theorem delete_again_not_found (srv : Server) (recipe_id : Z) :
  (DELETE_recipes recipe_id srv).1 ≠ HTTP_500 →
  DELETE_recipes recipe_id (DELETE_recipes recipe_id srv).2
  = (HTTP_error 404 (lit "Recipe not found"), (DELETE_recipes recipe_id srv).2).
Proof.
  intros Hans.
  assert (Ht : sqlite_table (recipes_db srv) = true ∧ in_int64 recipe_id = true).
  { rewrite DELETE_recipes_spec in Hans.
    by destruct (sqlite_table (recipes_db srv)), (in_int64 recipe_id). }
  destruct Ht as [Ht Hi].
  apply DELETE_recipes_missing; rewrite ?DELETE_recipes_db, ?Ht, ?Hi; cbn [andb].
  - by apply sqlite_table_filter.
  - done.
  - apply has_id_filter.
Qed.

Lemma delete_again_not_found_witness :
  DELETE_recipes 1 (DELETE_recipes 1 srv_soup).2
  = (HTTP_error 404 (lit "Recipe not found"), (DELETE_recipes 1 srv_soup).2).
Proof. apply (delete_again_not_found srv_soup 1). discriminate. Defined.




(** ** Ids across requests *)

Lemma ascending_weaken lo lo' t : (lo' ≤ lo)%Z → ascending lo t → ascending lo' t.
Proof. destruct t as [|r t]; [done |]. cbn. intros ? [? ?]. split; [lia | done]. Qed.

Lemma ascending_above t : ∀ lo r, ascending lo t → r ∈ t → (lo < row_id r)%Z.
Proof.
  induction t as [|x t IH]; intros lo r Ha Hr; [by apply elem_of_nil in Hr |].
  destruct Ha as [Hx Ha]. apply elem_of_cons in Hr as [-> | Hr]; [done |].
  specialize (IH _ _ Ha Hr). lia.
Qed.

Lemma ascending_filter i t : ∀ lo,
  ascending lo t → ascending lo (filter (λ r, row_id r ≠ i) t).
Proof.
  induction t as [|r t IH]; intros lo Ha; [done |]. destruct Ha as [Hlo Ha].
  destruct (decide (row_id r ≠ i)).
  - rewrite filter_cons_True by done. split; [done | by apply IH].
  - rewrite filter_cons_False by done. apply IH.
    apply (ascending_weaken (row_id r)); [lia | done].
Qed.

(** A row with an unused id, inserted at its place, keeps the order. *)
Lemma ascending_insert_row row t : ∀ lo,
  ascending lo t → (lo < row_id row)%Z → has_id (row_id row) t = false →
  ascending lo (insert_row row t).
Proof.
  induction t as [|x t IH]; intros lo Ha Hlo Hf; [done |].
  destruct Ha as [Hx Ha]. cbn [insert_row].
  unfold has_id in Hf. cbn [existsb] in Hf. apply orb_false_iff in Hf as [Hne Hf].
  apply Z.eqb_neq in Hne.
  destruct (Z.ltb_spec (row_id row) (row_id x)).
  - cbn [ascending]. done.
  - cbn [ascending]. split; [done |]. apply IH; [done | lia | done].
Qed.

Lemma ascending_serve `{StrMethods} q srv :
  ascending 0 (recipes_db srv) → ascending 0 (recipes_db (serve q srv)).
Proof.
  intros Ha.
  destruct (serve_db q srv)
    as [-> | [(random & recipe & i & _ & _ & _ & _ & Hi & ->) | (recipe_id & _ & ->)]].
  - done.
  - apply ascending_insert_row; [done | |]; cbn [stored_row row_id].
    + apply (new_rowid_positive random (recipes_db srv)); [| done].
      intros r Hr. by apply (ascending_above (recipes_db srv)).
    + by apply (new_rowid_fresh random).
  - by apply ascending_filter.
Qed.

(** X12.  From an empty database, after any sequence of requests, the ids in
    the table are at least 1 and ascend strictly in table order: the listing
    order is the order of creation, and no two recipes share an id. *)
Theorem ids_ascend `{StrMethods} (qs : list request) (w : list event) :
  ascending 0 (recipes_db (run qs {| recipes_db := []; outside := w |})).
Proof.
  assert (Hgen : ∀ srv, ascending 0 (recipes_db srv) → ascending 0 (recipes_db (run qs srv))).
  { induction qs as [|q qs IH]; intros srv Ha; [done |].
    cbn [run foldl]. apply IH. by apply ascending_serve. }
  by apply Hgen.
Qed.

(** ** The suggestion route *)

(** X13.  When the provider answers, the content of its first choice is
    relayed as it is, also when it is [None], provided it holds no surrogate
    code point; one completion call went out, nothing was printed and the
    database is as before. *)
Theorem suggestion_relayed_verbatim `{StrMethods} (env : Env) (data : IngredientList.t)
    (srv : Server) (recipe_text : option pystr) (choices : list (option pystr)) :
  truthy (GROQ_API_KEY env) = true →
  completions_create env (suggest_request (user_ingredients data))
    = Returns (recipe_text :: choices) →
  match recipe_text with Some text => utf8 text = true | None => True end →
  POST_ai_recipe env data srv
  = (HTTP_200 {| suggestion := recipe_text |},
     {| recipes_db := recipes_db srv;
        outside := outside srv ++ [Outbound (suggest_request (user_ingredients data))] |}).
Proof.
  intros Hk Hc Htext. rewrite (POST_ai_recipe_returns env data srv recipe_text choices Hk Hc).
  unfold respond, renders, Suggestion_body. cbn [suggestion].
  destruct recipe_text as [text|]; [by rewrite Htext | done].
Qed.

Lemma suggestion_relayed_verbatim_witness :
  POST_ai_recipe (H := AsciiStr) (env_up (Some (lit "Recipe Name: Fried Rice"))) rice_and_egg
    srv0
  = (HTTP_200 {| suggestion := Some (lit "Recipe Name: Fried Rice") |},
     {| recipes_db := [];
        outside := [Outbound (suggest_request (lit "rice, egg"))] |}).
Proof.
  apply (suggestion_relayed_verbatim (H := AsciiStr)
           (env_up (Some (lit "Recipe Name: Fried Rice"))) rice_and_egg srv0
           (Some (lit "Recipe Name: Fried Rice")) []).
  - reflexivity.
  - reflexivity.
  - reflexivity.
Defined.

(** X14.  With a credential the route makes exactly one completion call,
    whatever the provider does with it: the request names the model
    [llama3-8b-8192], carries the system prompt and the user message
    [Ingredients: ] followed by the comma-joined ingredients, at temperature
    0.8, and nothing else goes out (no retry). *)
Theorem one_completion_call `{StrMethods} (env : Env) (data : IngredientList.t)
    (srv : Server) :
  truthy (GROQ_API_KEY env) = true →
  ∃ evs,
    outside (POST_ai_recipe env data srv).2
    = outside srv
      ++ Outbound {| model := lit "llama3-8b-8192";
                     messages :=
                       [ {| role := lit "system"; content := AI_SYSTEM_PROMPT |};
                         {| role := lit "user";
                            content := lit "Ingredients: "
                                       ++ join (lit ", ") (IngredientList.ingredients data) |} ];
                     temperature := 8 # 10 |} :: evs
    ∧ ∀ req, Outbound req ∉ evs.
Proof.
  intros Hk.
  change {| model := _; messages := _; temperature := _ |}
    with (suggest_request (user_ingredients data)).
  destruct (completions_create env (suggest_request (user_ingredients data)))
    as [[|c cs] | e] eqn:Hc.
  - exists [Print_AI_Error (Exception "IndexError" [])].
    erewrite POST_ai_recipe_fallback; [| done | rewrite Hc; constructor].
    split; [done |]. intros req Hin. apply list_elem_of_singleton in Hin. discriminate.
  - exists []. erewrite POST_ai_recipe_returns by done.
    split; [done |]. intros req Hin. by apply elem_of_nil in Hin.
  - exists [Print_AI_Error e].
    erewrite POST_ai_recipe_fallback; [| done | rewrite Hc; constructor].
    split; [done |]. intros req Hin. apply list_elem_of_singleton in Hin. discriminate.
Qed.

Lemma one_completion_call_witness :
  ∃ evs,
    outside (POST_ai_recipe (H := AsciiStr) (env_down 0) rice_and_egg srv0).2
    = outside srv0
      ++ Outbound {| model := lit "llama3-8b-8192";
                     messages :=
                       [ {| role := lit "system"; content := AI_SYSTEM_PROMPT |};
                         {| role := lit "user";
                            content := lit "Ingredients: "
                                       ++ join (lit ", ") [lit "rice"; lit "egg"] |} ];
                     temperature := 8 # 10 |} :: evs
    ∧ ∀ req, Outbound req ∉ evs.
Proof.
  apply (one_completion_call (H := AsciiStr) (env_down 0) rice_and_egg srv0). reflexivity.
Defined.






(** ** The stored text *)

(** X17.  Whatever the ingredient strings are, a row that a create adds
    holds them as printable ASCII: every character of its [ingredients]
    column lies between space and tilde.  (Every row after the create that
    was not there before is such a row.) *)
Theorem stored_ingredients_are_ascii (srv : Server) (random : option Z)
    (recipe : RecipeCreate.t) (row : Row) :
  row ∈ recipes_db (POST_recipes random recipe srv).2 →
  row ∈ recipes_db srv ∨ forallb printable_ascii (row_ingredients row) = true.
Proof.
  pose proof (serve_db (H := AsciiStr) (Post random recipe) srv) as Hdb. cbn [serve] in Hdb.
  destruct Hdb as [-> | [(random' & recipe' & i & [= <- <-] & _ & _ & _ & _ & ->)
                        | (recipe_id & [=] & _)]].
  - by left.
  - intros [-> | Hrow]%elem_of_insert_row; [right | by left].
    cbn [stored_row row_ingredients]. apply dumps_printable.
Qed.

Lemma stored_ingredients_are_ascii_witness :
  mkRow 1 (lit "Soup") (Json.dumps [lit "carrot"; lit "onion"; lit "carrot"]) (lit "Boil.")
    ∈ recipes_db srv0
  ∨ forallb printable_ascii (Json.dumps [lit "carrot"; lit "onion"; lit "carrot"]) = true.
Proof.
  apply (stored_ingredients_are_ascii srv0 None soup
           (mkRow 1 (lit "Soup") (Json.dumps [lit "carrot"; lit "onion"; lit "carrot"])
              (lit "Boil."))).
  apply elem_of_cons. left. reflexivity.
Defined.

(** X18.  Lists of Unicode text that differ are stored as texts that
    differ: [json.dumps] is injective on them. *)
Theorem dumps_injective (l1 l2 : list pystr) :
  Forall unicode_text l1 → Forall unicode_text l2 →
  Json.dumps l1 = Json.dumps l2 → l1 = l2.
Proof.
  intros H1 H2 Heq.
  pose proof (LoadsDumps.loads_dumps l1 H1) as E1.
  pose proof (LoadsDumps.loads_dumps l2 H2) as E2.
  rewrite Heq in E1. congruence.
Qed.

Lemma dumps_injective_witness : [lit "egg"; lit "rice"] = [lit "egg"; lit "rice"].
Proof.
  apply (dumps_injective [lit "egg"; lit "rice"] [lit "egg"; lit "rice"]).
  - repeat constructor.
  - repeat constructor.
  - reflexivity.
Defined.

(** X19.  What a create answers with, when it answers 200, differs from the
    input at most by surrogate pairs: a high surrogate directly followed by
    a low one is answered as the one code point they encode, every other
    string as it was given.  (A string with a surrogate left alone is never
    answered: the response cannot be encoded.) *)
Theorem create_answers_canonical (srv : Server) (random : option Z)
    (recipe : RecipeCreate.t) (r : Recipe.t) :
  (POST_recipes random recipe srv).1 = HTTP_200 r →
  Recipe.ingredients r = map canon (RecipeCreate.ingredients recipe)
  ∧ forallb utf8 (Recipe.ingredients r) = true
  ∧ ∀ k s, RecipeCreate.ingredients recipe !! k = Some s → unicode_text s →
      Recipe.ingredients r !! k = Some s.
Proof.
  intros Hpost. destruct (POST_recipes_200 _ _ _ _ Hpost) as (i & _ & _ & Hr & -> & _).
  cbn [created Recipe.ingredients]. split; [reflexivity |]. split.
  - unfold renders, Recipe_body, created in Hr.
    cbn [Recipe.name Recipe.ingredients Recipe.steps] in Hr.
    by apply andb_true_iff in Hr as [[_ Hr]%andb_true_iff _].
  - intros k s Hk Hs.
    rewrite list_lookup_fmap, Hk. cbn. by rewrite LoadsDumps.canon_unicode_text.
Qed.

Lemma create_answers_canonical_witness :
  [[0x1F600]] = map canon [surrogate_pair]
  ∧ forallb utf8 [[0x1F600]] = true
  ∧ ∀ k s, [surrogate_pair] !! k = Some s → unicode_text s →
      [[0x1F600]] !! k = Some s.
Proof.
  apply (create_answers_canonical srv0 None
           (RecipeCreate.mk (lit "Smile") [surrogate_pair] (lit "Serve."))
           (Recipe.mk 1 (lit "Smile") [[0x1F600]] (lit "Serve."))).
  reflexivity.
Defined.


